(** * The multi-agent orchestration loop of [src/ui/multi_agent_local.py]

    A shallow embedding of the round-robin scheduler, the approval gate, the
    agent invoker and the HTML extractor, followed by the properties of the
    design document that concern them.

    Python values are modelled as follows.
    - [str] is a list of Unicode code points ([pystr]).
    - [history] is a list of [Message] records, newest last; [append] is
      [++ [_]].
    - The three collaborators ([client.messages.create], [input],
      [subprocess.run]) and [os.environ] form a [World]; every call made to
      them is recorded, in order, in the [trace] of the state, at the moment
      the call is made.
    - Of the exceptions a collaborator can raise, the model follows the one
      of [respond] (lines 124-130).  [input], [subprocess.run] and the
      [open]/[write] of [save_html] are followed on the runs in which they
      return; a run in which one of them raises stops at that call, whose
      entry is then the last of its trace.
    - [str.upper] is the per-code-point full upper-case mapping of the
      interpreter's Unicode database; it is a parameter of the development
      ([to_upper_full]), so every result holds for any such table. *)

From Stdlib Require Import String Ascii.
From stdpp Require Import gmap strings list.

Local Open Scope N_scope.

(** ** Strings *)

Definition pystr := list N.

(** An ASCII literal as a Python string. *)
Definition py (s : string) : pystr :=
  map N_of_ascii (list_ascii_of_string s).

(** [str.isspace] on one code point; also the class [\s] of [re] on [str]
    patterns, and the characters removed by [str.strip()]. *)
Definition isspace (c : N) : bool :=
  ((9 <=? c) && (c <=? 13)) || ((28 <=? c) && (c <=? 32))
  || (c =? 133) || (c =? 160) || (c =? 5760)
  || ((8192 <=? c) && (c <=? 8202))
  || (c =? 8232) || (c =? 8233) || (c =? 8239) || (c =? 8287)
  || (c =? 12288).

Fixpoint lstrip (s : pystr) : pystr :=
  match s with
  | c :: s' => if isspace c then lstrip s' else s
  | [] => []
  end.

Definition rstrip (s : pystr) : pystr := rev (lstrip (rev s)).

(** [s.strip()] *)
Definition strip (s : pystr) : pystr := rstrip (lstrip s).

(** [s.startswith(p)] *)
Fixpoint startswith (p s : pystr) : bool :=
  match p, s with
  | [], _ => true
  | a :: p', b :: s' => (a =? b) && startswith p' s'
  | _ :: _, [] => false
  end.

(** [p in s] *)
Fixpoint contains (p s : pystr) : bool :=
  startswith p s ||
  match s with
  | [] => false
  | _ :: s' => contains p s'
  end.

(** The upper-case table restricted to ASCII, on which it agrees with
    [str.upper]; used to run the model on ASCII transcripts. *)
Definition ascii_upper (c : N) : pystr :=
  if (97 <=? c) && (c <=? 122) then [c - 32] else [c].

(** ** What the properties say about strings *)

(** [p] occurs in [s] *)
Definition is_substring (p s : pystr) : Prop :=
  ∃ a b, s = a ++ p ++ b.

(** a string with no whitespace at either end *)
Definition trimmed (s : pystr) : Prop := lstrip s = s ∧ rstrip s = s.

(** ** The pattern of [extract_html]

    [re.compile(r"```html\s*(.*?)```", re.DOTALL | re.IGNORECASE)].
    Under [IGNORECASE] a literal letter matches the code points whose
    lower case is that letter; for [h], [t], [m] and [l] these are the two
    ASCII cases only.  The back-tick has no case.  Under [DOTALL] the dot
    matches every code point. *)

Definition fence : pystr := Eval cbv in py "```".
Definition html_tag : pystr := Eval cbv in py "html".

(** one literal letter of the pattern against one code point of the text *)
Definition ci_eqb (p c : N) : bool :=
  (c =? p) || ((97 <=? p) && (p <=? 122) && (c =? p - 32)).

(** the literal prefix [lit] of the pattern at the head of [s]: the rest of
    [s] after it *)
Fixpoint match_literal (lit s : pystr) : option pystr :=
  match lit, s with
  | [], _ => Some s
  | p :: lit', c :: s' => if ci_eqb p c then match_literal lit' s' else None
  | _ :: _, [] => None
  end.

(** [(.*?)```]: the shortest run of code points followed by a fence; the
    run is group 1 *)
Fixpoint lazy_group (s : pystr) : option pystr :=
  if startswith fence s then Some []
  else match s with
       | [] => None
       | c :: s' => cons c <$> lazy_group s'
       end.

(** number of leading whitespace code points *)
Fixpoint ws_run (s : pystr) : nat :=
  match s with
  | c :: s' => if isspace c then S (ws_run s') else O
  | [] => O
  end.

(** [\s*] is greedy: it first takes [k] whitespace code points, and gives
    them back one at a time while the rest of the pattern fails *)
Fixpoint greedy_ws (k : nat) (s : pystr) : option pystr :=
  match lazy_group (drop k s) with
  | Some g => Some g
  | None => match k with
            | O => None
            | S k' => greedy_ws k' s
            end
  end.

(** the whole pattern anchored at the head of [s]; the result is group 1 *)
Definition match_here (s : pystr) : option pystr :=
  match match_literal (fence ++ html_tag) s with
  | Some rest => greedy_ws (ws_run rest) rest
  | None => None
  end.

(** [pattern.search(s)]: the match at the leftmost position that has one;
    the result is [match.group(1)] *)
Fixpoint search (s : pystr) : option pystr :=
  match match_here s with
  | Some g => Some g
  | None => match s with
            | [] => None
            | _ :: s' => search s'
            end
  end.

Definition ascii_lower (c : N) : N :=
  if (65 <=? c) && (c <=? 90) then c + 32 else c.

(** [tag] is [html] in any mix of cases *)
Definition is_html_tag (tag : pystr) : Prop := map ascii_lower tag = html_tag.

(** [s] begins with an opening fence tagged [html] *)
Definition opens_html (s : pystr) : Prop :=
  ∃ tag rest, is_html_tag tag ∧ s = fence ++ tag ++ rest.

(** [s] holds a fenced block tagged [html]: an opening fence with the tag,
    and a closing fence somewhere after it *)
Definition has_html_block (s : pystr) : Prop :=
  ∃ pre tag body post,
    is_html_tag tag ∧ s = pre ++ fence ++ tag ++ body ++ fence ++ post.

(** [g] is the text of a fenced [html] block of [s], less the whitespace
    that follows the tag *)
Definition block_text (s g : pystr) : Prop :=
  ∃ pre tag ws post,
    is_html_tag tag ∧ Forall (λ c, isspace c = true) ws ∧
    s = pre ++ fence ++ tag ++ ws ++ g ++ fence ++ post.

(** ** Configuration and personas *)

Definition MAX_TOKENS : N := 4096.
Definition MAX_ROUNDS : nat := 20.

Definition BusinessAnalyst : pystr := Eval cbv in py "BusinessAnalyst".
Definition SoftwareEngineer : pystr := Eval cbv in py "SoftwareEngineer".
Definition ProductOwner : pystr := Eval cbv in py "ProductOwner".
Definition User : pystr := Eval cbv in py "User".

Definition AGENT_ORDER : list pystr :=
  [BusinessAnalyst; SoftwareEngineer; ProductOwner].

(** [PERSONAS[name]["system"]], as an association list *)
Definition PERSONAS : list (pystr * pystr) :=
  [ (BusinessAnalyst, py "You are a Business Analyst which will take the requirements from the user (also known as a 'customer') and create a project plan for creating the requested app. The Business Analyst understands the user requirements and creates detailed documents with requirements and costing. The documents should be usable by the SoftwareEngineer as a reference for implementing the required features, and by the Product Owner for reference to determine if the application delivered by the Software Engineer meets all of the user's requirements.");
    (SoftwareEngineer, py "You are a Software Engineer, and your goal is create a web app using HTML and JavaScript by taking into consideration all the requirements given by the Business Analyst. The application should implement all the requested features. Deliver the code to the Product Owner for review when completed. You can also ask questions of the BusinessAnalyst to clarify any requirements that are unclear.");
    (ProductOwner, py "You are the Product Owner which will review the software engineer's code to ensure all user requirements are completed. You are the guardian of quality, ensuring the final product meets all specifications. IMPORTANT: Verify that the Software Engineer has shared the HTML code using the format ```html [code] ```. This format is required for the code to be saved and pushed to GitHub. Once all client requirements are completed and the code is properly formatted, reply with 'READY FOR USER APPROVAL'. If there are missing features or formatting issues, you will need to send a request back to the SoftwareEngineer or BusinessAnalyst with details of the defect.") ].

(** [d[k]] on a dict with [str] keys; [None] is [KeyError] *)
Fixpoint dict_get {V} (d : list (pystr * V)) (k : pystr) : option V :=
  match d with
  | [] => None
  | (k', v) :: d' => if bool_decide (k' = k) then Some v else dict_get d' k
  end.

(** [l.index(x)]; [None] is [ValueError] *)
Fixpoint list_index (x : pystr) (l : list pystr) : option nat :=
  match l with
  | [] => None
  | y :: l' => if bool_decide (y = x) then Some O else S <$> list_index x l'
  end.

(** [os.getenv(key, default)] *)
Definition getenv (environ : gmap string pystr) (key : string) (default : pystr)
  : pystr :=
  match environ !! key with
  | Some v => v
  | None => default
  end.

(** ** Data model *)

Inductive Role := user | assistant.

Global Instance Role_eq_dec : EqDecision Role.
Proof. solve_decision. Defined.

Record Message := mkMessage {
  role : Role;
  name : pystr;      (* agent name or "User" *)
  content : pystr
}.

(** one entry of the [messages] argument of [client.messages.create] *)
Record OutMsg := mkOutMsg {
  out_role : Role;
  out_content : pystr
}.

(** [anthropic.Anthropic(api_key=...)]: building the client keeps the key
    and calls nothing *)
Record Client := mkClient { api_key : pystr }.

(** the keyword arguments of one [client.messages.create] call, and the
    key of the client it is made on *)
Record Request := mkRequest {
  req_api_key : pystr;
  req_model : pystr;
  req_max_tokens : N;
  req_system : pystr;
  req_messages : list OutMsg
}.

Record ClaudeAgent := mkAgent {
  agent_name : pystr;
  agent_system : pystr;
  agent_client : Client
}.

(** [subprocess.CompletedProcess] *)
Record CompletedProcess := mkProc {
  returncode : Z;
  stdout : pystr;
  stderr : pystr
}.

(** what [print] is called with *)
Inductive Notice :=
| NBanner                                   (* lines 222-224 *)
| NUserEcho (request : pystr)               (* line 225 *)
| NThinking (who : pystr)                   (* line 255 *)
| NAgentSaid (who response : pystr)         (* lines 258-259 *)
| NReadyForApproval                         (* line 266 *)
| NApprovedReceived                         (* line 238 *)
| NNoHtmlFound                              (* line 244 *)
| NMaxRoundsReached                         (* line 273 *)
| NSaved (filepath : pystr)                 (* line 149 *)
| NRunLabel (label : pystr)                 (* line 160 *)
| NStdout (text : pystr)                    (* line 163 *)
| NNothingNew                               (* line 167 *)
| NFailed (text : pystr)                    (* line 169 *)
| NPushing                                  (* line 173 *)
| NPushSucceeded                            (* line 181 *)
| NPushManual (branch : pystr).             (* lines 183-186 *)

(** the calls that leave the process, in the order they are made; an
    entry says that the call was made and with which arguments, not that
    it returned *)
Inductive Effect :=
| EPrint (n : Notice)
| EInput                                    (* input(prompt) *)
| ECreate (req : Request)                   (* client.messages.create(...) *)
| EWrite (filepath text : pystr)            (* open(filepath, "w").write(text) *)
| ERun (cmd : list pystr).                  (* subprocess.run(cmd, ...) *)

(** The collaborators.  Each answer may depend on everything the process
    has done so far (the trace).
    - [create] stands for lines 124-130 of [respond] taken together: its
      answer is the text of the first content block of the response, and
      [None] when those lines raise instead, be it the call itself or the
      reading of [response.content[0].text] from a response that has no
      content block.
    - [input] and [subprocess_run] are the answers of calls that return. *)
Record World := mkWorld {
  environ : gmap string pystr;
  create : list Effect -> Request -> option pystr;
  input : list Effect -> pystr;
  subprocess_run : list Effect -> list pystr -> CompletedProcess
}.

(** [KeyError], [IndexError] and [ValueError] are those of the loop's own
    lookups (lines 104, 252, 253 and 249); [APIError] stands for whatever
    lines 124-130 of [respond] let through *)
Inductive Exn := KeyError | IndexError | ValueError | APIError.

(** the local variables of [run_multi_agent_chat] and the trace *)
Record State := mkState {
  history : list Message;
  round_idx : nat;
  agent_idx : nat;
  waiting_for_approval : bool;
  trace : list Effect
}.

Definition emit (e : Effect) (st : State) : State :=
  mkState (history st) (round_idx st) (agent_idx st)
          (waiting_for_approval st) (trace st ++ [e]).

Definition print (n : Notice) : State -> State := emit (EPrint n).

(** [history.append(msg)] *)
Definition append (msg : Message) (st : State) : State :=
  mkState (history st ++ [msg]) (round_idx st) (agent_idx st)
          (waiting_for_approval st) (trace st).

Definition set_waiting (b : bool) (st : State) : State :=
  mkState (history st) (round_idx st) (agent_idx st) b (trace st).

Definition set_agent_idx (i : nat) (st : State) : State :=
  mkState (history st) (round_idx st) i (waiting_for_approval st) (trace st).

Definition set_round_idx (i : nat) (st : State) : State :=
  mkState (history st) i (agent_idx st) (waiting_for_approval st) (trace st).

Definition MODEL (w : World) : pystr :=
  getenv (environ w) "CLAUDE_MODEL" (py "claude-sonnet-4-20250514").

(** ** Agent runner *)

(** [ClaudeAgent.__init__] *)
Definition ClaudeAgent_init (who : pystr) (c : Client) : option ClaudeAgent :=
  match dict_get PERSONAS who with
  | Some sys => Some (mkAgent who sys c)
  | None => None
  end.

Definition label_of (msg : Message) : pystr :=
  if bool_decide (name msg ≠ User)
  then py "[" ++ name msg ++ py "]: "
  else py "[User]: ".

Definition project (msg : Message) : OutMsg :=
  mkOutMsg (role msg) (label_of msg ++ content msg).

Definition continue_as (who : pystr) : OutMsg :=
  mkOutMsg user (py "[System]: Please continue as " ++ who ++ py ".").

(** the [messages] list that [respond] sends *)
Definition build_messages (self : ClaudeAgent) (hist : list Message)
  : list OutMsg :=
  let messages := map project hist in
  match last messages with
  | Some m =>
      if bool_decide (out_role m = assistant)
      then messages ++ [continue_as (agent_name self)]
      else messages
  | None => messages
  end.

Definition request_of (w : World) (self : ClaudeAgent) (hist : list Message)
  : Request :=
  mkRequest (api_key (agent_client self)) (MODEL w) MAX_TOKENS
            (agent_system self) (build_messages self hist).

(** [ClaudeAgent.respond]: the state after the call (the history is not
    touched) and the text returned, or [None] when lines 124-130 raised *)
Definition respond (w : World) (self : ClaudeAgent) (st : State)
  : State * option pystr :=
  let req := request_of w self (history st) in
  (emit (ECreate req) st, create w (trace st) req).

(** ** HTML and GitHub helpers *)

(** the scan of [extract_html] over [reversed(history)] *)
Fixpoint extract_html_scan (msgs : list Message) : option pystr :=
  match msgs with
  | [] => None
  | msg :: rest =>
      match search (content msg) with
      | Some g => Some (strip g)
      | None => extract_html_scan rest
      end
  end.

Definition extract_html (hist : list Message) : option pystr :=
  extract_html_scan (rev hist).

Definition index_html : pystr := Eval cbv in py "index.html".

(** [save_html], on the runs in which [open] and [f.write] return: the
    write is made with [html_content], then the notice is printed.  When
    the write raises (a text that UTF-8 cannot encode, a file that cannot
    be opened) the run stops at the write, with no notice *)
Definition save_html (html_content filepath : pystr) (st : State) : State :=
  print (NSaved filepath) (emit (EWrite filepath html_content) st).

(** the local function [run] of [push_to_github], on the runs in which
    [subprocess.run] returns *)
Definition git_run (w : World) (cmd : list pystr) (label : pystr) (st : State)
  : State * bool :=
  let st := print (NRunLabel label) st in
  let result := subprocess_run w (trace st) cmd in
  let st := emit (ERun cmd) st in
  let st := match strip (stdout result) with
            | [] => st
            | out => print (NStdout out) st
            end in
  if bool_decide (returncode result ≠ 0%Z) then
    if contains (py "nothing to commit") (stdout result ++ stderr result)
    then (print NNothingNew st, true)
    else (print (NFailed (strip (stderr result))) st, false)
  else (st, true).

Definition push_to_github (w : World) (st : State) : State :=
  let branch := getenv (environ w) "GITHUB_BRANCH" (py "main") in
  let st := print NPushing st in
  let '(st, ok) :=
    let '(st, ok1) :=
      git_run w [py "git"; py "add"; index_html] (py "Staging index.html") st in
    if ok1 then
      let '(st, ok2) :=
        git_run w [py "git"; py "commit"; py "-m";
                   py "Auto-push approved app [multi-agent]"] (py "Committing") st in
      if ok2 then
        git_run w [py "git"; py "push"; py "origin"; branch]
                (py "Pushing to " ++ branch) st
      else (st, false)
    else (st, false) in
  if ok then print NPushSucceeded st else print (NPushManual branch) st.

(** control after one pass through the body of the [while] *)
Inductive Flow :=
| Next (st : State)             (* end of the body, or [continue] *)
| Break (st : State)
| Raise (e : Exn) (st : State).

Inductive Outcome :=
| Approved                      (* left by [break] *)
| MaxRoundsReached              (* the [else] of the [while] *)
| Raised (e : Exn)
| OutOfFuel.

(** ** Names used by the properties *)

(** the state in which a pass through the body ends, however it ends *)
Definition flow_state (f : Flow) : State :=
  match f with
  | Next st | Break st | Raise _ st => st
  end.

(** the state in which the post-approval steps start *)
Definition approved_state (w : World) (st : State) : State :=
  print NApprovedReceived
    (append (mkMessage user User (strip (input w (trace st)))) (emit EInput st)).

(** the name at position [i] of the rotation *)
Definition who_at (i : nat) : pystr :=
  match (i mod 3)%nat with
  | 0%nat => BusinessAnalyst
  | 1%nat => SoftwareEngineer
  | _ => ProductOwner
  end.

(** the agent that [ClaudeAgent(who, c)] builds *)
Definition agent_for (c : Client) (who : pystr) : ClaudeAgent :=
  mkAgent who (default [] (dict_get PERSONAS who)) c.

(** the number of agent turns of a history *)
Definition agent_turns (hist : list Message) : nat :=
  length (filter (λ m, role m = assistant) hist).

(** the calls and notices of the rotation: no read from the human, no
    post-approval notice, no file written, no command run *)
Definition rotation_effect (e : Effect) : bool :=
  match e with
  | EPrint (NBanner | NUserEcho _ | NThinking _ | NAgentSaid _ _
            | NMaxRoundsReached)
  | ECreate _ => true
  | _ => false
  end.

Section Orchestrator.

(** [c.upper()] for one code point *)
Variable to_upper_full : N -> pystr.

(** [s.upper()] *)
Definition upper (s : pystr) : pystr := flat_map to_upper_full s.

(** ** Termination check *)

Fixpoint should_terminate_scan (msgs : list Message) : bool :=
  match msgs with
  | [] => false
  | msg :: rest =>
      if bool_decide (name msg = User)
      then bool_decide (upper (strip (content msg)) = py "APPROVED")
      else should_terminate_scan rest
  end.

Definition should_terminate (hist : list Message) : bool :=
  should_terminate_scan (rev hist).

Definition READY : pystr := Eval cbv in py "READY FOR USER APPROVAL".

Fixpoint product_owner_ready_scan (msgs : list Message) : bool :=
  match msgs with
  | [] => false
  | msg :: rest =>
      if bool_decide (name msg = ProductOwner)
      then contains READY (upper (content msg))
      else product_owner_ready_scan rest
  end.

Definition product_owner_ready (hist : list Message) : bool :=
  product_owner_ready_scan (rev hist).

(** ** Main loop *)

(** lines 232-249, entered when [waiting_for_approval]; [Next] falls
    through to the agent's turn of the same pass *)
Definition approval_gate (w : World) (st : State) : Flow :=
  let user_input := strip (input w (trace st)) in
  let st := emit EInput st in
  let st := append (mkMessage user User user_input) st in
  if should_terminate (history st) then
    let st := print NApprovedReceived st in
    match extract_html (history st) with
    | Some (c :: html) =>
        Break (push_to_github w (save_html (c :: html) index_html st))
    | _ => Break (print NNoHtmlFound st)
    end
  else
    match list_index ProductOwner AGENT_ORDER with
    | Some i => Next (set_agent_idx i (set_waiting false st))
    | None => Raise ValueError st
    end.

(** lines 255-270: the turn of [agent], picked under the name [who] *)
Definition speak (w : World) (who : pystr) (agent : ClaudeAgent) (st : State)
  : Flow :=
  let st := print (NThinking who) st in
  match respond w agent st with
  | (st, None) => Raise APIError st
  | (st, Some response) =>
      let st := print (NAgentSaid who response) st in
      let st := append (mkMessage assistant who response) st in
      if bool_decide (who = ProductOwner) && product_owner_ready (history st)
      then Next (print NReadyForApproval (set_waiting true st))
      else Next (set_round_idx (round_idx st + 1)
                   (set_agent_idx (agent_idx st + 1) st))
  end.

(** lines 251-270 *)
Definition agent_turn (w : World) (agents : list (pystr * ClaudeAgent))
    (st : State) : Flow :=
  match AGENT_ORDER !! (agent_idx st mod length AGENT_ORDER)%nat with
  | None => Raise IndexError st
  | Some who =>
      match dict_get agents who with
      | None => Raise KeyError st
      | Some agent => speak w who agent st
      end
  end.

(** one pass through the body of the [while] *)
Definition loop_body (w : World) (agents : list (pystr * ClaudeAgent))
    (st : State) : Flow :=
  if waiting_for_approval st then
    match approval_gate w st with
    | Next st => agent_turn w agents st
    | stop => stop
    end
  else agent_turn w agents st.

(** [while round_idx < MAX_ROUNDS: ... else: ...]; the loop need not end, so
    the number of passes is bounded by [fuel] *)
Fixpoint loop (fuel : nat) (w : World) (agents : list (pystr * ClaudeAgent))
    (st : State) : Outcome * State :=
  match fuel with
  | O => (OutOfFuel, st)
  | S fuel' =>
      if (round_idx st <? MAX_ROUNDS)%nat then
        match loop_body w agents st with
        | Next st' => loop fuel' w agents st'
        | Break st' => (Approved, st')
        | Raise e st' => (Raised e, st')
        end
      else (MaxRoundsReached, print NMaxRoundsReached st)
  end.

(** the state at the head of the [while] after [n] passes, if the loop is
    still running then *)
Fixpoint loop_head (n : nat) (w : World) (agents : list (pystr * ClaudeAgent))
    (st : State) : option State :=
  match n with
  | O => Some st
  | S n' =>
      if (round_idx st <? MAX_ROUNDS)%nat then
        match loop_body w agents st with
        | Next st' => loop_head n' w agents st'
        | _ => None
        end
      else None
  end.

(** [agents = {name: ClaudeAgent(name, client) for name in AGENT_ORDER}] *)
Definition make_agents (c : Client) : option (list (pystr * ClaudeAgent)) :=
  mapM (fun who => pair who <$> ClaudeAgent_init who c) AGENT_ORDER.

(** the state when the [while] is first reached *)
Definition start (user_request : pystr) : State :=
  print (NUserEcho user_request)
    (print NBanner
       (mkState [mkMessage user User user_request] 0 0 false [])).

Definition run_multi_agent_chat (fuel : nat) (w : World) (user_request : pystr)
  : Outcome * State :=
  let client := mkClient (getenv (environ w) "ANTHROPIC_API_KEY" []) in
  match make_agents client with
  | None => (Raised KeyError, mkState [] 0 0 false [])
  | Some agents => loop fuel w agents (start user_request)
  end.

(** the agents of a session on client [c] ([[]] had a persona been missing) *)
Definition session_agents (c : Client) : list (pystr * ClaudeAgent) :=
  default [] (make_agents c).

(** the reply that makes the Product Owner's turn a readiness signal *)
Definition signals_ready (who response : pystr) : bool :=
  bool_decide (who = ProductOwner) && contains READY (upper response).

(** a Product Owner turn that signals readiness *)
Definition is_ready_turn (m : Message) : bool :=
  signals_ready (name m) (content m).

Definition ready_turns (hist : list Message) : nat :=
  length (filter (λ m, is_ready_turn m = true) hist).

Definition accounted (st : State) : Prop :=
  agent_turns (history st) = (round_idx st + ready_turns (history st))%nat.

End Orchestrator.

(** the reading of C9: the run is stopped by an exception before it has
    printed or called anything *)
Definition fails_at_startup (r : Outcome * State) : Prop :=
  (∃ e, r.1 = Raised e) ∧ trace r.2 = [].

(** ** Concrete transcripts *)

(** no credentials, no settings; every agent answers [ok] *)
Definition quiet_world : World :=
  mkWorld ∅ (λ _ _, Some (py "ok")) (λ _, py " approved ")
          (λ _ _, mkProc 0 [] []).

(** the Product Owner is satisfied at once, and the human approves *)
Definition approving_world : World :=
  mkWorld ∅
    (λ _ req,
       if bool_decide (Some (req_system req) = dict_get PERSONAS ProductOwner)
       then Some (py "All good. Ready for user approval.")
       else Some (py "Here it is: ```HTML
<p>one</p>
``` and ```html <p>two</p>```"))
    (λ _, py " Approved ")
    (λ _ _, mkProc 0 [] []).

(** no credentials, and a completion service that refuses a call made
    with an empty key *)
Definition keyless_world : World :=
  mkWorld ∅
    (λ _ req, if bool_decide (req_api_key req = []) then None else Some (py "ok"))
    (λ _, []) (λ _ _, mkProc 0 [] []).

Definition calc : Message := mkMessage user User (py "Build a calculator").

Definition no_client : Client := mkClient [].

(** the state in which the Product Owner is next, two rounds in *)
Definition owner_next : State :=
  mkState [calc; mkMessage assistant BusinessAnalyst (py "plan");
           mkMessage assistant SoftwareEngineer (py "```html <p>v1</p> ```")]
          2 2 false [].

Definition owner_reply : Message :=
  mkMessage assistant ProductOwner (py "All good. Ready for user approval.").

Definition owner_said : State :=
  mkState (history owner_next ++ [owner_reply]) 2 2 true
    [EPrint (NThinking ProductOwner);
     ECreate (request_of approving_world (agent_for no_client ProductOwner)
                (history owner_next));
     EPrint (NAgentSaid ProductOwner (content owner_reply));
     EPrint NReadyForApproval].

(** a human who answers the readiness notice with a remark *)
Definition remarking_world : World :=
  mkWorld ∅ (create approving_world) (λ _, py "please add a footer")
          (λ _ _, mkProc 0 [] []).

Definition after_three : State :=
  Eval vm_compute in
    default (start [])
      (loop_head ascii_upper 3 quiet_world (session_agents no_client)
         (start (content calc))).

Definition engineer_two_blocks : Message :=
  mkMessage assistant SoftwareEngineer (py "Here it is: ```HTML
<p>one</p>
``` and ```html <p>two</p>```").

Definition reviewed_history : list Message :=
  [calc;
   mkMessage assistant SoftwareEngineer (py "```html <p>v1</p> ```");
   engineer_two_blocks;
   mkMessage assistant ProductOwner (py "Ready for user approval");
   mkMessage user User (py "Approved")].

(** the loop waits for approval, and no turn holds a block *)
Definition waiting_without_html : State :=
  mkState [calc; mkMessage assistant BusinessAnalyst (py "plan");
           mkMessage assistant ProductOwner (py "ready for user approval")]
          1 2 true [].

(** the loop waits for approval of the history of [reviewed_history] *)
Definition waiting_reviewed : State :=
  mkState (take 4 reviewed_history) 2 2 true [].

(** ** Entry point *)

Definition DEFAULT_REQUEST : pystr :=
  Eval cbv in py "Build a calculator app with basic arithmetic operations.".

(** what [interactive_session] does around [run_multi_agent_chat] *)
Inductive SessionEvent :=
| SBanner                                   (* lines 281-283 *)
| SPrompt                                   (* input(...), line 285 *)
| SChat (e : Effect).                       (* an effect of the chat *)

(** [interactive_session]: the outcome and last state of the chat, and
    everything done, in order; the line typed at the prompt is the
    world's answer before anything is on the chat's trace *)
Definition interactive_session (to_upper_full : N -> pystr) (fuel : nat)
    (w : World) : Outcome * State * list SessionEvent :=
  let user_input := strip (input w []) in
  let user_input := match user_input with
                    | [] => DEFAULT_REQUEST
                    | _ => user_input
                    end in
  let r := run_multi_agent_chat to_upper_full fuel w user_input in
  (r, SBanner :: SPrompt :: map SChat (trace r.2)).

(** ** Measures of a trace *)

(** the commands handed to [subprocess.run], in order *)
Fixpoint runs (tr : list Effect) : list (list pystr) :=
  match tr with
  | [] => []
  | ERun cmd :: tr' => cmd :: runs tr'
  | _ :: tr' => runs tr'
  end.

(** the [Failed] notices of [push_to_github] *)
Definition is_failed_notice (e : Effect) : bool :=
  match e with
  | EPrint (NFailed _) => true
  | _ => false
  end.

(** a file write or a command *)
Definition publishes (e : Effect) : bool :=
  match e with
  | EWrite _ _ | ERun _ => true
  | _ => false
  end.

Definition is_create (e : Effect) : bool :=
  match e with
  | ECreate _ => true
  | _ => false
  end.

Definition is_input (e : Effect) : bool :=
  match e with
  | EInput => true
  | _ => false
  end.

(** the number of effects of a trace that satisfy [f] *)
Definition count (f : Effect -> bool) (tr : list Effect) : nat :=
  length (List.filter f tr).

(** the number of human turns of a history *)
Definition human_turns (hist : list Message) : nat :=
  length (filter (λ m, role m = user) hist).

(** the three commands of [push_to_github], for the branch of [w] *)
Definition git_commands (w : World) : list (list pystr) :=
  [ [py "git"; py "add"; index_html];
    [py "git"; py "commit"; py "-m"; py "Auto-push approved app [multi-agent]"];
    [py "git"; py "push"; py "origin";
     getenv (environ w) "GITHUB_BRANCH" (py "main")] ].

(** a turn as the loop appends them: a human turn is named [User] and has
    the user role, an agent turn is named after an agent of the rotation
    and has the assistant role *)
Definition well_formed_turn (m : Message) : Prop :=
  (role m = user ∧ name m = User)
  ∨ (role m = assistant ∧ name m ∈ AGENT_ORDER).

(** ** States around the approval gate *)

(** the state the gate hands to the Product Owner after a remark *)
Definition resumed (w : World) (st : State) : State :=
  mkState (history st ++ [mkMessage user User (strip (input w (trace st)))])
          (round_idx st) 2 false (trace st ++ [EInput]).

(** the state the gate leaves when the human approves *)
Definition after_approval (w : World) (st : State) : State :=
  match extract_html
          (history st ++ [mkMessage user User (strip (input w (trace st)))]) with
  | Some (c :: html) =>
      push_to_github w (save_html (c :: html) index_html (approved_state w st))
  | _ => print NNoHtmlFound (approved_state w st)
  end.

(** a state that waits for approval has a readiness signal as its
    newest turn *)
Definition waits_on_signal (to_upper_full : N -> pystr) (st : State) : Prop :=
  waiting_for_approval st = true →
  ∃ h po, history st = h ++ [po]
          ∧ name po = ProductOwner ∧ role po = assistant
          ∧ is_substring READY (upper to_upper_full (content po)).

(** the states of a run in which every reply signals readiness and the
    human never approves: the first two rounds, then the Product Owner's
    position for ever *)
Definition cycling (st : State) : Prop :=
  (waiting_for_approval st = false ∧ agent_idx st = round_idx st
   ∧ (round_idx st ≤ 2)%nat)
  ∨ (waiting_for_approval st = true ∧ round_idx st = 2%nat).


Definition is_print (e : Effect) : bool :=
  match e with
  | EPrint _ => true
  | _ => false
  end.

(** the effects of [push_to_github] *)
Definition print_or_run (e : Effect) : bool :=
  match e with
  | EPrint _ | ERun _ => true
  | _ => false
  end.

(** ** The single-agent chat of [src/ui/chat.py] *)

Module Chat.

(** an entry of [chat_history]: a dict with [role] and [content]; the
    content of a reply is [None] when the message has no text *)
Record Entry := mkEntry {
  entry_role : Role;
  entry_content : option pystr
}.

(** what happens inside the [try]: the content of the first choice, or
    the text [str(e)] of the exception raised *)
Inductive Completion :=
| Content (c : option pystr)
| Failure (text : pystr).

(** one call of [process_message]: its argument and what the
    collaborators do; [client_built] is false when [initialize_client]
    raises; [complete] is given the [messages] argument *)
Record Call := mkCall {
  user_input : pystr;
  client_built : bool;
  complete : list Entry -> Completion
}.

Inductive Result :=
| Returned (text : option pystr)
| ClientError.                     (* the exception of [initialize_client] *)

(** [process_message]: the result, the global [chat_history] afterwards
    and the lines given to [logger.error] *)
Definition process_message (call : Call) (chat_history : list Entry)
  : Result * list Entry * list pystr :=
  if client_built call then
    let chat_history := chat_history ++ [mkEntry user (Some (user_input call))] in
    match complete call chat_history with
    | Content assistant_message =>
        (Returned assistant_message,
         chat_history ++ [mkEntry assistant assistant_message], [])
    | Failure text =>
        (Returned (Some (py "Error: " ++ text)), chat_history,
         [py "Error processing message: " ++ text])
    end
  else (ClientError, chat_history, []).

Definition reset_chat_history (chat_history : list Entry) : list Entry := [].

(** calls made one after the other on the same global history *)
Fixpoint process_all (calls : list Call) (chat_history : list Entry)
  : list Result * list Entry :=
  match calls with
  | [] => ([], chat_history)
  | call :: rest =>
      let '(result, chat_history, _) := process_message call chat_history in
      let '(results, chat_history) := process_all rest chat_history in
      (result :: results, chat_history)
  end.

(** the entries of a history with role [r] *)
Definition of_role (r : Role) (chat_history : list Entry) : list Entry :=
  filter (λ e, entry_role e = r) chat_history.

(** the user entries of the calls that got a client *)
Definition questions (calls : list Call) : list Entry :=
  map (λ call, mkEntry user (Some (user_input call)))
      (filter (λ call, client_built call = true) calls).

End Chat.

(** ** More concrete transcripts *)

(** every reply signals readiness, and the human always has a remark *)
Definition eager_world : World :=
  mkWorld ∅ (λ _ _, Some (py "READY FOR USER APPROVAL")) (λ _, py "more")
          (λ _ _, mkProc 0 [] []).

(** the head of the loop after the Product Owner's first turn, which
    signals readiness *)
Definition after_signal : State :=
  Eval vm_compute in
    default (start [])
      (loop_head ascii_upper 3 approving_world (session_agents no_client)
         (start (content calc))).

(** a turn whose block holds whitespace only *)
Definition engineer_blank_block : Message :=
  mkMessage assistant SoftwareEngineer (py "```html
   ```").

(** the loop waits for approval of a history whose only block is blank *)
Definition waiting_blank : State :=
  mkState [calc; engineer_blank_block;
           mkMessage assistant ProductOwner (py "Ready for user approval")]
          1 2 true [].

(** * Properties *)

(** ** Strings *)

Lemma startswith_spec p s : startswith p s = true ↔ ∃ t, s = p ++ t.
Proof.
  revert s. induction p as [|a p IH]; intros s; simpl.
  - split; eauto.
  - destruct s as [|b s].
    + split; [done | intros [t Ht]; discriminate].
    + rewrite andb_true_iff, N.eqb_eq, IH. split.
      * intros [-> [t ->]]. eauto.
      * intros [t Ht]. injection Ht as -> ->. eauto.
Qed.

Lemma contains_spec p s : contains p s = true ↔ is_substring p s.
Proof.
  unfold is_substring. induction s as [|c s IH].
  - simpl. rewrite orb_false_r, startswith_spec. split.
    + intros [t Ht]. exists [], t. done.
    + intros (a & b & Hab). destruct a; simpl in Hab.
      * eauto.
      * discriminate.
  - simpl. rewrite orb_true_iff, startswith_spec, IH. split.
    + intros [[t Ht] | (a & b & ->)].
      * exists [], t. done.
      * exists (c :: a), b. done.
    + intros (a & b & Hab). destruct a as [|c' a]; simpl in Hab.
      * left. eauto.
      * right. injection Hab as -> ->. eauto.
Qed.

Lemma startswith_head_ne a p c s : a ≠ c → startswith (a :: p) (c :: s) = false.
Proof. intros Hne. simpl. apply N.eqb_neq in Hne. by rewrite Hne. Qed.

Lemma lstrip_split s :
  ∃ ws, s = ws ++ lstrip s ∧ Forall (λ c, isspace c = true) ws.
Proof.
  induction s as [|c s (ws & Hs & Hws)]; simpl.
  - exists []. done.
  - destruct (isspace c) eqn:Hc.
    + exists (c :: ws). split; [simpl; congruence | by constructor].
    + exists []. done.
Qed.

Lemma lstrip_head s : head (lstrip s) = None ∨
                      ∃ c, head (lstrip s) = Some c ∧ isspace c = false.
Proof.
  induction s as [|c s IH]; simpl; [by left|].
  destruct (isspace c) eqn:Hc; [done|]. right. eauto.
Qed.

Lemma lstrip_id s :
  (∀ c, head s = Some c → isspace c = false) → lstrip s = s.
Proof.
  destruct s as [|c s]; simpl; [done|]. intros H. by rewrite (H c eq_refl).
Qed.

Lemma lstrip_app_ws ws s :
  Forall (λ c, isspace c = true) ws → lstrip (ws ++ s) = lstrip s.
Proof. induction 1 as [|c ws Hc _ IH]; simpl; [done|]. by rewrite Hc. Qed.

Lemma lstrip_idemp s : lstrip (lstrip s) = lstrip s.
Proof.
  apply lstrip_id. intros c Hc.
  destruct (lstrip_head s) as [H | (c' & H & Hs)]; congruence.
Qed.

Lemma lstrip_app_nonws s t c :
  head t = Some c → isspace c = false → lstrip (s ++ t) = lstrip s ++ t.
Proof.
  intros Ht Hc. induction s as [|d s IH]; simpl.
  - apply lstrip_id. intros c' Hc'. congruence.
  - destruct (isspace d); done.
Qed.

Lemma rstrip_idemp s : rstrip (rstrip s) = rstrip s.
Proof. unfold rstrip. by rewrite rev_involutive, lstrip_idemp. Qed.

Lemma lstrip_nil_or_cons s :
  lstrip s = [] ∨ ∃ c t, lstrip s = c :: t ∧ isspace c = false.
Proof.
  destruct (lstrip_head s) as [H | (c & H & Hc)].
  - left. by destruct (lstrip s).
  - right. destruct (lstrip s) as [|c' t]; [done|].
    injection H as ->. eauto.
Qed.

(** stripping the right end keeps a non-whitespace head in place *)
Lemma rstrip_cons_nonws c t :
  isspace c = false → ∃ t', rstrip (c :: t) = c :: t'.
Proof.
  intros Hc. unfold rstrip. simpl.
  destruct (lstrip_split (rev t)) as (ws & Hrev & Hws).
  rewrite (lstrip_app_nonws (rev t) [c] c); [|done..].
  rewrite rev_app_distr. simpl. eauto.
Qed.

Lemma strip_trimmed s : trimmed (strip s).
Proof.
  unfold trimmed, strip. split; [|apply rstrip_idemp].
  destruct (lstrip_nil_or_cons s) as [-> | (c & t & -> & Hc)]; [done|].
  destruct (rstrip_cons_nonws c t Hc) as [t' ->]. simpl. by rewrite Hc.
Qed.

Lemma strip_idemp s : strip (strip s) = strip s.
Proof.
  destruct (strip_trimmed s) as [Hl Hr]. unfold strip at 1. by rewrite Hl, Hr.
Qed.

(** ** The pattern *)

Example search_two_blocks :
  search (py "a ```HTML
<p>1</p> ``` b ```html <p>2</p>```") = Some (py "<p>1</p> ").
Proof. reflexivity. Qed.

Example search_unclosed : search (py "x ```html <p>") = None.
Proof. reflexivity. Qed.

Lemma ci_eqb_spec p c :
  ¬ (65 ≤ p ≤ 90) → ci_eqb p c = true ↔ ascii_lower c = p.
Proof.
  intros Hp. unfold ci_eqb, ascii_lower.
  destruct (65 <=? c) eqn:H1, (c <=? 90) eqn:H2, (c =? p) eqn:H3,
    (97 <=? p) eqn:H4, (p <=? 122) eqn:H5, (c =? p - 32) eqn:H6; simpl;
    rewrite ?N.leb_le, ?N.leb_gt, ?N.eqb_eq, ?N.eqb_neq in *;
    split; intros; try done; try lia.
Qed.

Lemma match_literal_spec lit s rest :
  Forall (λ p, ¬ (65 ≤ p ≤ 90)) lit →
  match_literal lit s = Some rest ↔ ∃ t, map ascii_lower t = lit ∧ s = t ++ rest.
Proof.
  intros Hlit. revert s. induction Hlit as [|p lit Hp _ IH]; intros s; simpl.
  - split.
    + intros [= ->]. exists []. done.
    + intros (t & Ht & ->). destruct t; [done | discriminate].
  - destruct s as [|c s].
    + split; [done|]. intros (t & Ht & Hs). destruct t; discriminate.
    + destruct (ci_eqb p c) eqn:Hc.
      * apply ci_eqb_spec in Hc; [|done]. rewrite IH. split.
        -- intros (t & Ht & ->). exists (c :: t). simpl. by rewrite Hc, Ht.
        -- intros (t & Ht & Hs). destruct t as [|c' t]; [discriminate|].
           simpl in *. injection Hs as -> ->. injection Ht as _ Ht. eauto.
      * split; [done|]. intros (t & Ht & Hs).
        destruct t as [|c' t]; [discriminate|]. simpl in *.
        injection Hs as -> ->. injection Ht as Hc' _.
        apply ci_eqb_spec in Hc'; [congruence | done].
Qed.

Lemma ascii_lower_backtick c : ascii_lower c = 96 → c = 96.
Proof.
  unfold ascii_lower.
  destruct (65 <=? c) eqn:H1, (c <=? 90) eqn:H2; simpl;
    rewrite ?N.leb_le, ?N.leb_gt in *; lia.
Qed.

Lemma match_opening_spec s rest :
  match_literal (fence ++ html_tag) s = Some rest
  ↔ ∃ tag, is_html_tag tag ∧ s = fence ++ tag ++ rest.
Proof.
  rewrite match_literal_spec.
  2:{ unfold fence, html_tag. simpl. repeat constructor; lia. }
  unfold is_html_tag. split.
  - intros (t & Ht & ->).
    destruct t as [|c1 [|c2 [|c3 tag]]]; try discriminate.
    simpl in Ht. injection Ht as H1 H2 H3 Ht.
    apply ascii_lower_backtick in H1, H2, H3. subst. eauto.
  - intros (tag & Ht & ->). exists (fence ++ tag). split; [|by rewrite <- app_assoc].
    rewrite map_app, Ht. done.
Qed.

Lemma opens_html_iff s :
  opens_html s ↔ is_Some (match_literal (fence ++ html_tag) s).
Proof.
  unfold opens_html. split.
  - intros (tag & rest & Ht & Hs). exists rest. apply match_opening_spec. eauto.
  - intros [rest Hrest]. apply match_opening_spec in Hrest as (tag & Ht & Hs).
    eauto.
Qed.

Lemma isspace_not_backtick c : isspace c = true → c ≠ 96.
Proof. intros Hc ->. discriminate. Qed.

Lemma startswith_fence_ws c s : isspace c = true → startswith fence (c :: s) = false.
Proof.
  intros Hc. apply startswith_head_ne. intros <-. discriminate.
Qed.

Lemma lazy_group_cons c s :
  lazy_group (c :: s) = if startswith fence (c :: s) then Some []
                        else cons c <$> lazy_group s.
Proof. done. Qed.

Lemma lazy_group_some s g :
  lazy_group s = Some g → ∃ post, s = g ++ fence ++ post.
Proof.
  revert g. induction s as [|c s IH]; intros g.
  - done.
  - rewrite lazy_group_cons. destruct (startswith fence (c :: s)) eqn:Hf.
    + intros [= <-]. apply startswith_spec in Hf as [post ->]. eauto.
    + destruct (lazy_group s) as [g'|]; [|done]. intros [= <-].
      destruct (IH g' eq_refl) as [post ->]. eauto.
Qed.

Lemma lazy_group_first g post :
  (∀ k, (k < length g)%nat → startswith fence (drop k (g ++ fence ++ post)) = false) →
  lazy_group (g ++ fence ++ post) = Some g.
Proof.
  induction g as [|c g IH]; intros Hfirst.
  - simpl. done.
  - assert (Hc : startswith fence (c :: g ++ fence ++ post) = false).
    { apply (Hfirst 0%nat). simpl. lia. }
    rewrite <- app_comm_cons, lazy_group_cons, Hc, IH; [done|]. intros k Hk. apply (Hfirst (S k)). simpl. lia.
Qed.

Lemma lazy_group_is_Some s : is_Some (lazy_group s) ↔ contains fence s = true.
Proof.
  induction s as [|c s IH].
  - simpl. split; [intros [? ?]|]; done.
  - rewrite lazy_group_cons.
    change (contains fence (c :: s))
      with (startswith fence (c :: s) || contains fence s).
    destruct (startswith fence (c :: s)); simpl; [split; eauto|].
    rewrite <- IH. destruct (lazy_group s); simpl; split; intros [? ?]; eauto; done.
Qed.

Lemma contains_fence_lstrip s : contains fence (lstrip s) = contains fence s.
Proof.
  induction s as [|c s IH]; [done|]. simpl lstrip.
  destruct (isspace c) eqn:Hc; [|done]. rewrite IH.
  change (contains fence (c :: s))
    with (startswith fence (c :: s) || contains fence s).
  by rewrite startswith_fence_ws.
Qed.

Lemma drop_ws_run s : drop (ws_run s) s = lstrip s.
Proof. induction s as [|c s IH]; simpl; [done|]. by destruct (isspace c). Qed.

Lemma drop_in_ws_run k s :
  (k < ws_run s)%nat → ∃ c, isspace c = true ∧ drop k s = c :: drop (S k) s.
Proof.
  revert k. induction s as [|c s IH]; intros k; simpl; [lia|].
  destruct (isspace c) eqn:Hc; [|lia]. destruct k as [|k]; intros Hk.
  - exists c. by rewrite drop_0.
  - apply IH. lia.
Qed.

(** giving whitespace back never helps: the group starts after all of it *)
Lemma greedy_ws_eq k s :
  (k ≤ ws_run s)%nat → greedy_ws k s = lazy_group (drop k s).
Proof.
  induction k as [|k IH]; intros Hk; simpl.
  - by destruct (lazy_group (drop 0 s)).
  - destruct (lazy_group (drop (S k) s)) as [g|] eqn:Hg; [done|].
    rewrite IH by lia. destruct (drop_in_ws_run k s) as (c & Hc & ->); [lia|].
    by rewrite lazy_group_cons, startswith_fence_ws, Hg.
Qed.

Lemma match_here_spec s g :
  match_here s = Some g
  ↔ ∃ tag rest, is_html_tag tag ∧ s = fence ++ tag ++ rest
                ∧ lazy_group (lstrip rest) = Some g.
Proof.
  unfold match_here. split.
  - destruct (match_literal (fence ++ html_tag) s) as [rest|] eqn:Hm; [|done].
    apply match_opening_spec in Hm as (tag & Ht & ->).
    rewrite greedy_ws_eq, drop_ws_run by done. eauto 6.
  - intros (tag & rest & Ht & -> & Hg).
    assert (Hm : match_literal (fence ++ html_tag) (fence ++ tag ++ rest) = Some rest)
      by (apply match_opening_spec; eauto).
    rewrite Hm, greedy_ws_eq, drop_ws_run; done.
Qed.

Lemma match_here_not_opening s : ¬ opens_html s → match_here s = None.
Proof.
  intros Hno. unfold match_here.
  destruct (match_literal (fence ++ html_tag) s) eqn:Hm; [|done].
  destruct Hno. apply opens_html_iff. eauto.
Qed.

Lemma search_cons c s :
  search (c :: s) = match match_here (c :: s) with
                    | Some g => Some g
                    | None => search s
                    end.
Proof. done. Qed.

Lemma search_here s g : match_here s = Some g → search s = Some g.
Proof. intros Hg. destruct s; [discriminate Hg|]. by rewrite search_cons, Hg. Qed.

Lemma search_block_text s g : search s = Some g → block_text s g.
Proof.
  assert (Hhere : ∀ x, match_here x = Some g → block_text x g).
  { intros x (tag & rest & Ht & -> & Hg)%match_here_spec.
    apply lazy_group_some in Hg as [post Hpost].
    destruct (lstrip_split rest) as (ws & Hrest & Hws).
    exists [], tag, ws, post. repeat split; [done..|].
    simpl. do 2 f_equal. rewrite Hrest at 1. by rewrite Hpost. }
  induction s as [|c s IH].
  - done.
  - rewrite search_cons. destruct (match_here (c :: s)) eqn:Hm.
    + intros [= ->]. eauto.
    + intros (pre & tag & ws & post & Ht & Hws & ->)%IH.
      exists (c :: pre), tag, ws, post. done.
Qed.

Lemma block_text_has_block s g : block_text s g → has_html_block s.
Proof.
  intros (pre & tag & ws & post & Ht & _ & ->).
  exists pre, tag, (ws ++ g), post. split; [done|]. by rewrite <- app_assoc.
Qed.

Lemma match_here_block tag body post :
  is_html_tag tag → is_Some (match_here (fence ++ tag ++ body ++ fence ++ post)).
Proof.
  intros Ht.
  assert (Hc : contains fence (lstrip (body ++ fence ++ post)) = true).
  { rewrite contains_fence_lstrip. apply contains_spec. exists body, post. done. }
  apply lazy_group_is_Some in Hc as [g Hg]. exists g.
  apply match_here_spec. eauto 6.
Qed.

Lemma search_app_is_Some pre s : is_Some (match_here s) → is_Some (search (pre ++ s)).
Proof.
  intros [g Hg]. induction pre as [|c pre IH].
  - rewrite app_nil_l, (search_here s g); eauto.
  - rewrite <- app_comm_cons, search_cons. destruct (match_here (c :: pre ++ s)); eauto.
Qed.

Lemma search_has_block s : is_Some (search s) ↔ has_html_block s.
Proof.
  split.
  - intros [g Hg]. eapply block_text_has_block, search_block_text, Hg.
  - intros (pre & tag & body & post & Ht & ->).
    apply search_app_is_Some, match_here_block, Ht.
Qed.

Lemma search_None s : search s = None ↔ ¬ has_html_block s.
Proof.
  rewrite <- search_has_block. split.
  - intros -> [? ?]. done.
  - intros Hno. destruct (search s); [|done]. destruct Hno. eauto.
Qed.

(** the match is at the first opening fence, up to the first fence after it *)
Lemma search_first pre tag inner post :
  is_html_tag tag →
  (∀ k, (k < length pre)%nat →
        ¬ opens_html (drop k (pre ++ fence ++ tag ++ inner ++ fence ++ post))) →
  (∀ k, (k < length inner)%nat →
        startswith fence (drop k (inner ++ fence ++ post)) = false) →
  search (pre ++ fence ++ tag ++ inner ++ fence ++ post) = Some (lstrip inner).
Proof.
  intros Ht Hpre Hinner.
  assert (Hhere : match_here (fence ++ tag ++ inner ++ fence ++ post)
                  = Some (lstrip inner)).
  { apply match_here_spec. exists tag, (inner ++ fence ++ post).
    split; [done|]. split; [done|].
    rewrite (lstrip_app_nonws inner (fence ++ post) 96) by done.
    destruct (lstrip_split inner) as (ws & Hin & Hws).
    remember (lstrip inner) as body eqn:Hbody. clear Hbody. subst inner.
    apply lazy_group_first. intros k Hk.
    specialize (Hinner (length ws + k)%nat).
    rewrite <- app_assoc, drop_app_add in Hinner.
    apply Hinner. rewrite length_app. lia. }
  clear Hinner. induction pre as [|c pre IH].
  - rewrite app_nil_l. by apply search_here.
  - rewrite <- app_comm_cons, search_cons, (match_here_not_opening (c :: _)).
    + apply IH. intros k Hk. apply (Hpre (S k)). simpl. lia.
    + apply (Hpre 0%nat). simpl. lia.
Qed.

(** boolean checks of the side conditions, for concrete texts *)
Lemma forallb_seq_lt (f : nat → bool) (n : nat) :
  forallb f (seq 0 n) = true → ∀ k, (k < n)%nat → f k = true.
Proof.
  intros Hall k Hk. rewrite forallb_forall in Hall. apply Hall.
  apply in_seq. lia.
Qed.

Lemma no_opening_forallb s n :
  forallb (λ k, bool_decide (match_literal (fence ++ html_tag) (drop k s) = None))
          (seq 0 n) = true →
  ∀ k, (k < n)%nat → ¬ opens_html (drop k s).
Proof.
  intros Hall k Hk [rest Hrest]%opens_html_iff.
  apply (forallb_seq_lt _ _ Hall), bool_decide_eq_true in Hk. congruence.
Qed.

Lemma no_fence_forallb s n :
  forallb (λ k, negb (startswith fence (drop k s))) (seq 0 n) = true →
  ∀ k, (k < n)%nat → startswith fence (drop k s) = false.
Proof.
  intros Hall k Hk. apply (forallb_seq_lt _ _ Hall) in Hk.
  by apply negb_true_iff.
Qed.

Lemma no_block_forallb hist :
  forallb (λ m, bool_decide (search (content m) = None)) hist = true →
  Forall (λ m, ¬ has_html_block (content m)) hist.
Proof.
  induction hist as [|m hist IH]; simpl; [constructor|].
  intros [Hm Hall]%andb_true_iff. constructor; [|by apply IH].
  apply bool_decide_eq_true in Hm. by apply search_None.
Qed.

(** ** Extraction *)

Lemma extract_html_scan_skip skipped rest :
  Forall (λ m, ¬ has_html_block (content m)) skipped →
  extract_html_scan (skipped ++ rest) = extract_html_scan rest.
Proof.
  induction 1 as [|m skipped Hm _ IH]; [done|].
  simpl. apply search_None in Hm. by rewrite Hm.
Qed.

Lemma extract_html_at older m newer :
  Forall (λ m', ¬ has_html_block (content m')) newer →
  extract_html (older ++ m :: newer)
  = match search (content m) with
    | Some g => Some (strip g)
    | None => extract_html older
    end.
Proof.
  intros Hnewer. unfold extract_html.
  rewrite rev_app_distr. simpl. rewrite <- app_assoc.
  rewrite extract_html_scan_skip by by apply Forall_rev. done.
Qed.

Lemma extract_html_None hist :
  Forall (λ m, ¬ has_html_block (content m)) hist → extract_html hist = None.
Proof.
  intros Hno. unfold extract_html.
  rewrite <- (app_nil_r (rev hist)), extract_html_scan_skip; [done|].
  by apply Forall_rev.
Qed.

(** every history with a block splits at its newest turn that holds one *)
Lemma latest_block_turn hist :
  (∃ m, m ∈ hist ∧ has_html_block (content m)) →
  ∃ older m newer,
    hist = older ++ m :: newer ∧ has_html_block (content m)
    ∧ Forall (λ m', ¬ has_html_block (content m')) newer.
Proof.
  induction hist as [|x hist IH] using rev_ind.
  - intros (m & Hm & _). by apply elem_of_nil in Hm.
  - intros (m & Hm & Hblock).
    destruct (search (content x)) as [g|] eqn:Hx.
    + exists hist, x, []. split; [done|]. split; [|constructor].
      apply search_has_block. eauto.
    + apply search_None in Hx. apply elem_of_app in Hm as [Hm | Hm].
      * destruct IH as (older & m' & newer & -> & Hm' & Hnewer); [eauto|].
        exists older, m', (newer ++ [x]). rewrite <- app_assoc. split; [done|].
        split; [done|]. apply Forall_app. split; [done|]. by constructor.
      * apply list_elem_of_singleton in Hm as ->. done.
Qed.

(** C5. When some turn of the history holds a fenced block tagged [html] in
    any mix of cases, [extract_html] returns the block of the newest such
    turn: the history splits as [older ++ m :: newer] with [m] holding a
    block and no turn of [newer] holding one, the result is the stripped
    text [g] of a block of [m], and it stays the same whatever the turns
    before [m] are. *)
Theorem extract_html_latest_block (hist : list Message) :
  (∃ m, m ∈ hist ∧ has_html_block (content m)) →
  ∃ older m newer g,
    hist = older ++ m :: newer
    ∧ has_html_block (content m)
    ∧ Forall (λ m', ¬ has_html_block (content m')) newer
    ∧ search (content m) = Some g
    ∧ block_text (content m) g
    ∧ extract_html hist = Some (strip g)
    ∧ ∀ older', extract_html (older' ++ m :: newer) = Some (strip g).
Proof.
  intros (older & m & newer & -> & Hm & Hnewer)%latest_block_turn.
  destruct (proj2 (search_has_block (content m)) Hm) as [g Hg].
  exists older, m, newer, g. repeat split; try done.
  - by apply search_block_text.
  - by rewrite extract_html_at, Hg.
  - intros older'. by rewrite extract_html_at, Hg.
Qed.

Section Properties.

(** the upper-case table of the interpreter *)
Variable up : N -> pystr.

Local Open Scope nat_scope.

(** ** The two predicates *)

Lemma should_terminate_snoc hist m :
  name m = User →
  should_terminate up (hist ++ [m])
  = bool_decide (upper up (strip (content m)) = py "APPROVED").
Proof.
  intros Hm. unfold should_terminate.
  rewrite rev_app_distr. simpl. by rewrite bool_decide_eq_true_2.
Qed.

Lemma product_owner_ready_snoc hist m :
  product_owner_ready up (hist ++ [m])
  = if bool_decide (name m = ProductOwner)
    then contains READY (upper up (content m))
    else product_owner_ready up hist.
Proof. unfold product_owner_ready. rewrite rev_app_distr. done. Qed.

Lemma product_owner_ready_at older m newer :
  name m = ProductOwner →
  Forall (λ m', name m' ≠ ProductOwner) newer →
  product_owner_ready up (older ++ m :: newer)
  = contains READY (upper up (content m)).
Proof.
  intros Hm. induction newer as [|x newer IH] using rev_ind; intros Hnewer.
  - by rewrite product_owner_ready_snoc, bool_decide_eq_true_2.
  - apply Forall_app in Hnewer as [Hnewer Hx]. apply Forall_inv in Hx.
    rewrite app_comm_cons, app_assoc, product_owner_ready_snoc.
    rewrite (bool_decide_eq_false_2 _ Hx). by apply IH.
Qed.

(** ** The helpers leave the loop variables alone *)

Ltac unfold_state :=
  unfold print, emit, append, set_waiting, set_round_idx, set_agent_idx;
  simpl; rewrite <- ?app_assoc; simpl.

Lemma git_run_fields w cmd label st :
  let st' := (git_run w cmd label st).1 in
  history st' = history st ∧ round_idx st' = round_idx st
  ∧ agent_idx st' = agent_idx st
  ∧ waiting_for_approval st' = waiting_for_approval st
  ∧ ∃ extra, trace st' = trace st ++ EPrint (NRunLabel label) :: ERun cmd :: extra.
Proof.
  unfold git_run.
  generalize (subprocess_run w (trace (print (NRunLabel label) st)) cmd).
  intros result.
  destruct (strip (stdout result)),
    (bool_decide (returncode result ≠ 0%Z)),
    (contains (py "nothing to commit") (stdout result ++ stderr result)); simpl;
    repeat split; try done; rewrite <- ?app_assoc; simpl; eauto.
Qed.

Lemma push_to_github_fields w st :
  let st' := push_to_github w st in
  history st' = history st ∧ round_idx st' = round_idx st
  ∧ agent_idx st' = agent_idx st
  ∧ waiting_for_approval st' = waiting_for_approval st
  ∧ ∃ extra, trace st' = trace st ++ EPrint NPushing :: extra.
Proof.
  unfold push_to_github. simpl.
  set (b := getenv _ _ _).
  pose proof (git_run_fields w [py "git"; py "add"; index_html]
                (py "Staging index.html") (print NPushing st)) as H1.
  destruct (git_run w [py "git"; py "add"; index_html] _ _) as [st1 ok1].
  simpl in H1. destruct H1 as (Hh1 & Hr1 & Ha1 & Hw1 & x1 & Ht1).
  pose proof (git_run_fields w [py "git"; py "commit"; py "-m";
                py "Auto-push approved app [multi-agent]"] (py "Committing") st1)
    as H2.
  destruct (git_run w [py "git"; py "commit"; _; _] _ _) as [st2 ok2].
  simpl in H2. destruct H2 as (Hh2 & Hr2 & Ha2 & Hw2 & x2 & Ht2).
  pose proof (git_run_fields w [py "git"; py "push"; py "origin"; b]
                (py "Pushing to " ++ b) st2) as H3.
  destruct (git_run w [py "git"; py "push"; _; _] _ _) as [st3 ok3].
  simpl in H3. destruct H3 as (Hh3 & Hr3 & Ha3 & Hw3 & x3 & Ht3).
  destruct ok1, ok2, ok3; simpl; rewrite ?Ht3, ?Ht2, ?Ht1, <- ?app_assoc; simpl;
    (repeat split; [congruence.. | eexists; reflexivity]).
Qed.

(** ** The approval gate *)

Lemma approval_gate_eq w st :
  let line := strip (input w (trace st)) in
  let hist' := history st ++ [mkMessage user User line] in
  approval_gate up w st
  = if bool_decide (upper up line = py "APPROVED") then
      Break (match extract_html hist' with
             | Some (c :: html) =>
                 push_to_github w
                   (save_html (c :: html) index_html (approved_state w st))
             | _ => print NNoHtmlFound (approved_state w st)
             end)
    else Next (mkState hist' (round_idx st) 2 false (trace st ++ [EInput])).
Proof.
  unfold approval_gate. simpl.
  rewrite should_terminate_snoc by done. simpl. rewrite strip_idemp.
  destruct (bool_decide _); [|done].
  by destruct (extract_html _) as [[|c html]|].
Qed.

(** ** The agent's turn *)

Lemma make_agents_eq c :
  make_agents c = Some (map (λ who, (who, agent_for c who)) AGENT_ORDER).
Proof. reflexivity. Qed.

Lemma agent_turn_eq w c st :
  agent_turn up w (session_agents c) st
  = speak up w (who_at (agent_idx st)) (agent_for c (who_at (agent_idx st))) st.
Proof.
  unfold agent_turn, session_agents, who_at. rewrite make_agents_eq.
  change (length AGENT_ORDER) with 3%nat.
  pose proof (Nat.mod_upper_bound (agent_idx st) 3) as Hlt.
  destruct (agent_idx st mod 3)%nat as [|[|[|n]]]; [done..|lia].
Qed.

Lemma who_at_position i :
  AGENT_ORDER !! (i mod length AGENT_ORDER)%nat = Some (who_at i).
Proof.
  unfold who_at. change (length AGENT_ORDER) with 3%nat.
  pose proof (Nat.mod_upper_bound i 3) as Hlt.
  destruct (i mod 3)%nat as [|[|[|n]]]; [done..|lia].
Qed.

Lemma speak_eq w who agent st :
  let req := request_of w agent (history st) in
  let tr := trace st ++ [EPrint (NThinking who)] in
  speak up w who agent st
  = match create w tr req with
    | None => Raise APIError (emit (ECreate req) (print (NThinking who) st))
    | Some response =>
        let msg := mkMessage assistant who response in
        let tr' := tr ++ [ECreate req; EPrint (NAgentSaid who response)] in
        if signals_ready up who response
        then Next (mkState (history st ++ [msg]) (round_idx st) (agent_idx st)
                     true (tr' ++ [EPrint NReadyForApproval]))
        else Next (mkState (history st ++ [msg]) (S (round_idx st))
                     (S (agent_idx st)) (waiting_for_approval st) tr')
    end.
Proof.
  unfold speak, respond, signals_ready. simpl.
  destruct (create w _ _) as [response|]; [|done]. simpl.
  rewrite product_owner_ready_snoc. simpl.
  destruct (bool_decide (who = ProductOwner)), (contains READY _); simpl;
    unfold_state; rewrite ?Nat.add_1_r; done.
Qed.

(** the outcomes of the gate: the session ends, or the turn of the same
    pass is taken at the Product Owner's position *)
Lemma approval_gate_cases w st :
  let hist' := history st ++ [mkMessage user User (strip (input w (trace st)))] in
  (upper up (strip (input w (trace st))) = py "APPROVED"
   ∧ ∃ st', approval_gate up w st = Break st'
            ∧ history st' = hist' ∧ round_idx st' = round_idx st
            ∧ ∃ extra, trace st'
                       = trace st ++ EInput :: EPrint NApprovedReceived :: extra)
  ∨ (upper up (strip (input w (trace st))) ≠ py "APPROVED"
     ∧ approval_gate up w st
       = Next (mkState hist' (round_idx st) 2 false (trace st ++ [EInput]))).
Proof.
  intros hist'. rewrite approval_gate_eq. fold hist'.
  destruct (bool_decide_reflect (upper up (strip (input w (trace st)))
                                 = py "APPROVED")) as [Heq | Hne].
  - left. split; [done|]. eexists. split; [done|].
    destruct (extract_html hist') as [[|c html]|].
    + unfold approved_state. unfold_state. eauto.
    + pose proof (push_to_github_fields w
                    (save_html (c :: html) index_html (approved_state w st)))
        as (Hh & Hr & _ & _ & extra & Ht).
      rewrite Hh, Hr, Ht. unfold approved_state, save_html. unfold_state. eauto.
    + unfold approved_state. unfold_state. eauto.
  - right. done.
Qed.

(** the outcomes of an agent's turn, for any table of agents *)
Lemma agent_turn_cases w ags st :
  (∃ e st', agent_turn up w ags st = Raise e st'
            ∧ history st' = history st ∧ round_idx st' = round_idx st
            ∧ waiting_for_approval st' = waiting_for_approval st)
  ∨ (∃ who agent response req,
        AGENT_ORDER !! (agent_idx st mod length AGENT_ORDER) = Some who
        ∧ dict_get ags who = Some agent
        ∧ req = request_of w agent (history st)
        ∧ create w (trace st ++ [EPrint (NThinking who)]) req = Some response
        ∧ agent_turn up w ags st
          = Next (if signals_ready up who response
                  then mkState
                         (history st ++ [mkMessage assistant who response])
                         (round_idx st) (agent_idx st) true
                         (trace st ++ [EPrint (NThinking who); ECreate req;
                                       EPrint (NAgentSaid who response);
                                       EPrint NReadyForApproval])
                  else mkState
                         (history st ++ [mkMessage assistant who response])
                         (S (round_idx st)) (S (agent_idx st))
                         (waiting_for_approval st)
                         (trace st ++ [EPrint (NThinking who); ECreate req;
                                       EPrint (NAgentSaid who response)]))).
Proof.
  unfold agent_turn.
  destruct (AGENT_ORDER !! _) as [who|] eqn:Hwho; [|left; eauto 10].
  destruct (dict_get ags who) as [agent|] eqn:Hagent; [|left; eauto 10].
  rewrite speak_eq. simpl.
  destruct (create w _ _) as [response|] eqn:Hcreate.
  - right. exists who, agent, response, (request_of w agent (history st)).
    repeat split; try done.
    destruct (signals_ready up who response); rewrite <- ?app_assoc; done.
  - left. eauto 10.
Qed.

Lemma signals_ready_true who response :
  signals_ready up who response = true
  ↔ who = ProductOwner ∧ is_substring READY (upper up response).
Proof.
  unfold signals_ready.
  by rewrite andb_true_iff, bool_decide_eq_true, contains_spec.
Qed.

Lemma snoc_at_latest {A} (P : A → Prop) (h older newer : list A) (x m : A) :
  h ++ [x] = older ++ m :: newer → P x → Forall (λ y, ¬ P y) newer →
  newer = [] ∧ m = x ∧ older = h.
Proof.
  intros Heq Hx Hnewer. destruct newer as [|y newer _] using rev_ind.
  - apply app_inj_tail in Heq as [-> ->]. done.
  - apply Forall_app in Hnewer as [_ Hy]. apply Forall_inv in Hy.
    rewrite app_comm_cons, app_assoc in Heq.
    apply app_inj_tail in Heq as [_ ->]. done.
Qed.

Lemma product_owner_ready_absent hist :
  Forall (λ m, name m ≠ ProductOwner) hist →
  product_owner_ready up hist = false.
Proof.
  induction hist as [|x hist IH] using rev_ind; [done|].
  intros [Hhist Hx%Forall_inv]%Forall_app.
  rewrite product_owner_ready_snoc, (bool_decide_eq_false_2 _ Hx). by apply IH.
Qed.

(** C1. After a turn of the rotation, if the newest Product Owner turn of
    the history holds [READY FOR USER APPROVAL] once upper-cased, and the
    turn just appended is the Product Owner's, then the readiness predicate
    is true, the loop is waiting for approval, and neither the agent index
    nor the round count has moved.  The predicate is a substring test on
    the newest Product Owner turn only: on any history it is true exactly
    when the upper-cased content of that turn holds the phrase, whatever
    the older turns say, so an older signal does not count once a newer
    Product Owner turn lacks the phrase; and it is false of a history with
    no Product Owner turn. *)
Theorem readiness_transition w c st st' older m newer :
  agent_turn up w (session_agents c) st = Next st' →
  history st' = older ++ m :: newer →
  name m = ProductOwner →
  Forall (λ x, name x ≠ ProductOwner) newer →
  is_substring READY (upper up (content m)) →
  (∃ m', last (history st') = Some m' ∧ name m' = ProductOwner) →
  product_owner_ready up (history st') = true
  ∧ waiting_for_approval st' = true
  ∧ agent_idx st' = agent_idx st
  ∧ round_idx st' = round_idx st
  ∧ history st' = history st ++ [m]
  ∧ (∀ before after,
       Forall (λ x, name x ≠ ProductOwner) after →
       product_owner_ready up (before ++ m :: after) = true)
  ∧ (∀ before x after,
       name x = ProductOwner →
       Forall (λ y, name y ≠ ProductOwner) after →
       (product_owner_ready up (before ++ x :: after) = true
        ↔ is_substring READY (upper up (content x)))
       ∧ (product_owner_ready up (before ++ x :: after) = false
          ↔ ¬ is_substring READY (upper up (content x))))
  ∧ (∀ hist,
       Forall (λ x, name x ≠ ProductOwner) hist →
       product_owner_ready up hist = false).
Proof.
  intros Hturn Hsplit Hm Hnewer Hready (m' & Hlast & Hm').
  assert (Hany : ∀ before after,
             Forall (λ x, name x ≠ ProductOwner) after →
             product_owner_ready up (before ++ m :: after) = true).
  { intros before after Hafter. rewrite product_owner_ready_at by done.
    by apply contains_spec. }
  assert (Hlatest : ∀ before x after,
             name x = ProductOwner →
             Forall (λ y, name y ≠ ProductOwner) after →
             (product_owner_ready up (before ++ x :: after) = true
              ↔ is_substring READY (upper up (content x)))
             ∧ (product_owner_ready up (before ++ x :: after) = false
                ↔ ¬ is_substring READY (upper up (content x)))).
  { intros before x after Hx Hafter. rewrite product_owner_ready_at by done.
    rewrite <- contains_spec. split; [done|].
    by destruct (contains READY (upper up (content x))). }
  pose proof product_owner_ready_absent as Habsent.
  destruct (agent_turn_cases w (session_agents c) st)
    as [(e & s & He & _) | (who & agent & response & req & _ & _ & _ & _ & Hn)];
    [congruence|].
  rewrite Hn in Hturn. injection Hturn as <-.
  assert (Hsig : signals_ready up who response = true).
  { destruct (signals_ready up who response) eqn:Hsig; [done|]. simpl in *.
    rewrite last_snoc in Hlast. injection Hlast as <-.
    destruct (snoc_at_latest (λ x, name x = ProductOwner) _ _ _ _ _
                Hsplit Hm' Hnewer) as (_ & -> & _).
    rewrite <- Hsig. by apply signals_ready_true. }
  rewrite Hsig in *. simpl in *.
  rewrite last_snoc in Hlast. injection Hlast as <-.
  destruct (snoc_at_latest (λ x, name x = ProductOwner) _ _ _ _ _
              Hsplit Hm' Hnewer) as (_ & -> & _).
  split; [|done].
  rewrite product_owner_ready_snoc, bool_decide_eq_true_2 by done.
  by apply contains_spec.
Qed.

Lemma loop_step fuel w ags st :
  round_idx st < MAX_ROUNDS →
  loop up (S fuel) w ags st
  = match loop_body up w ags st with
    | Next st' => loop up fuel w ags st'
    | Break st' => (Approved, st')
    | Raise e st' => (Raised e, st')
    end.
Proof. intros Hlt. simpl. apply Nat.ltb_lt in Hlt. by rewrite Hlt. Qed.

Lemma loop_done fuel w ags st :
  MAX_ROUNDS ≤ round_idx st →
  loop up (S fuel) w ags st = (MaxRoundsReached, print NMaxRoundsReached st).
Proof.
  intros Hge. simpl. apply Nat.ltb_ge in Hge.
  change (round_idx st <? 20) with (round_idx st <? MAX_ROUNDS).
  by rewrite Hge.
Qed.

(** C2. While the loop waits for approval, the line read from the human
    decides: when its stripped, upper-cased text is exactly [APPROVED] the
    termination predicate is true and the session ends approved; for any
    other line the predicate is false, the loop stops waiting, and the
    agent index is set to the Product Owner's position, whose turn is taken
    in the same pass. *)
Theorem approval_gate_decision w ags st fuel :
  let line := input w (trace st) in
  let hist' := history st ++ [mkMessage user User (strip line)] in
  waiting_for_approval st = true →
  round_idx st < MAX_ROUNDS →
  (upper up (strip line) = py "APPROVED" →
     should_terminate up hist' = true
     ∧ ∃ st', approval_gate up w st = Break st'
              ∧ loop up (S fuel) w ags st = (Approved, st')
              ∧ history st' = hist')
  ∧ (upper up (strip line) ≠ py "APPROVED" →
     should_terminate up hist' = false
     ∧ ∃ st', approval_gate up w st = Next st'
              ∧ waiting_for_approval st' = false
              ∧ list_index ProductOwner AGENT_ORDER = Some (agent_idx st')
              ∧ AGENT_ORDER !! (agent_idx st' mod length AGENT_ORDER)
                = Some ProductOwner
              ∧ history st' = hist'
              ∧ round_idx st' = round_idx st
              ∧ loop_body up w ags st = agent_turn up w ags st').
Proof.
  intros line hist' Hwait Hlt. subst line hist'.
  rewrite loop_step by done. unfold loop_body. rewrite Hwait.
  rewrite should_terminate_snoc by done. cbn [content]. rewrite strip_idemp.
  destruct (approval_gate_cases w st)
    as [(Heq & st' & Hgate & Hhist & _) | (Hne & Hgate)]; rewrite Hgate.
  - split; [|done]. intros _. split; [by apply bool_decide_eq_true_2|]. eauto.
  - split; [done|]. intros _. split; [by apply bool_decide_eq_false_2|].
    eexists. repeat split; done.
Qed.

(** C6. When the human approves and no turn of the history, the approval
    line included, holds a fenced [html] block, [extract_html] finds
    nothing, and the session ends approved having only read the line and
    printed the two notices: nothing is written and no command is run. *)
Theorem extraction_miss_skips_publish w ags st fuel :
  let hist' :=
    history st ++ [mkMessage user User (strip (input w (trace st)))] in
  waiting_for_approval st = true →
  round_idx st < MAX_ROUNDS →
  should_terminate up hist' = true →
  Forall (λ m, ¬ has_html_block (content m)) hist' →
  extract_html hist' = None
  ∧ loop up (S fuel) w ags st
    = (Approved,
       mkState hist' (round_idx st) (agent_idx st) true
         (trace st ++ [EInput; EPrint NApprovedReceived; EPrint NNoHtmlFound])).
Proof.
  intros hist' Hwait Hlt Hterm Hno.
  pose proof (extract_html_None hist' Hno) as Hnone. split; [done|].
  rewrite loop_step by done. unfold loop_body. rewrite Hwait.
  rewrite approval_gate_eq. fold hist'.
  unfold hist' in Hterm. rewrite should_terminate_snoc in Hterm by done.
  simpl in Hterm. rewrite strip_idemp in Hterm. rewrite Hterm, Hnone.
  unfold approved_state. unfold_state. by rewrite Hwait.
Qed.

(** ** Reachable states *)

Lemma loop_head_S n w ags st :
  loop_head up (S n) w ags st
  = if round_idx st <? MAX_ROUNDS
    then match loop_body up w ags st with
         | Next st1 => loop_head up n w ags st1
         | _ => None
         end
    else None.
Proof. done. Qed.

Lemma loop_head_last n w ags st st' :
  loop_head up (S n) w ags st = Some st' →
  ∃ st1, loop_head up n w ags st = Some st1
         ∧ round_idx st1 < MAX_ROUNDS
         ∧ loop_body up w ags st1 = Next st'.
Proof.
  revert st. induction n as [|n IH]; intros st; rewrite loop_head_S.
  - destruct (round_idx st <? MAX_ROUNDS) eqn:Hlt; [|done].
    destruct (loop_body up w ags st) eqn:Hbody; [|done..].
    intros [= ->]. apply Nat.ltb_lt in Hlt. exists st. done.
  - rewrite (loop_head_S n).
    destruct (round_idx st <? MAX_ROUNDS); [|done].
    destruct (loop_body up w ags st); [|done..]. by apply IH.
Qed.

(** a pass that leaves the loop waiting has just appended a Product Owner
    turn that signals readiness *)
Lemma loop_body_waiting w ags st st' :
  loop_body up w ags st = Next st' →
  waiting_for_approval st' = true →
  ∃ h m, history st' = h ++ [m] ∧ name m = ProductOwner
         ∧ is_substring READY (upper up (content m)).
Proof.
  assert (Hturn : ∀ s, waiting_for_approval s = false →
            agent_turn up w ags s = Next st' → waiting_for_approval st' = true →
            ∃ h m, history st' = h ++ [m] ∧ name m = ProductOwner
                   ∧ is_substring READY (upper up (content m))).
  { intros s Hs Hnext Hw.
    destruct (agent_turn_cases w ags s)
      as [(e & s' & He & _) | (who & agent & response & req & _ & _ & _ & _ & Hn)];
      [congruence|].
    rewrite Hn in Hnext. injection Hnext as <-.
    destruct (signals_ready up who response) eqn:Hsig; simpl in *; [|congruence].
    apply signals_ready_true in Hsig as [-> Hsub]. eauto. }
  unfold loop_body. destruct (waiting_for_approval st) eqn:Hwait.
  - destruct (approval_gate_cases w st)
      as [(_ & s & Hgate & _) | (_ & Hgate)]; rewrite Hgate; [done|].
    by apply Hturn.
  - by apply Hturn.
Qed.

(** C3. In every state the loop reaches from the start of a session, after
    any number of passes: when no Product Owner turn of the history holds
    [READY FOR USER APPROVAL] once upper-cased, the loop is not waiting for
    approval. *)
Theorem never_awaiting_without_signal w c user_request n st :
  loop_head up n w (session_agents c) (start user_request) = Some st →
  (∀ m, m ∈ history st → name m = ProductOwner →
        ¬ is_substring READY (upper up (content m))) →
  waiting_for_approval st = false.
Proof.
  intros Hhead Hnone. destruct n as [|n].
  - injection Hhead as <-. done.
  - apply loop_head_last in Hhead as (st1 & _ & _ & Hbody).
    destruct (waiting_for_approval st) eqn:Hwait; [|done].
    destruct (loop_body_waiting _ _ _ _ Hbody Hwait) as (h & m & Hh & Hm & Hsub).
    destruct (Hnone m); [|done..]. rewrite Hh. set_solver.
Qed.

(** ** The agent invoker *)

Lemma label_of_eq msg : label_of msg = py "[" ++ name msg ++ py "]: ".
Proof.
  unfold label_of. case_bool_decide as Hname; [done|]. by rewrite Hname.
Qed.

(** C7. When the last turn of the history has the assistant role, the
    messages sent to [client.messages.create] are the turns of the history
    in order, each with its role and its content behind the label
    [[<name>]: ] (which is [[User]: ] for the human), followed by one
    user-role message [[System]: Please continue as <name of the agent>.];
    [respond] leaves the history as it is, and the turn of the loop that
    calls it appends the agent's reply and nothing else. *)
Theorem invoker_projection w self ags st older m :
  history st = older ++ [m] →
  role m = assistant →
  let synthetic :=
    mkOutMsg user (py "[System]: Please continue as " ++ agent_name self ++ py ".") in
  let req := request_of w self (history st) in
  req_messages req
  = map (λ msg, mkOutMsg (role msg) (py "[" ++ name msg ++ py "]: " ++ content msg))
        (history st) ++ [synthetic]
  ∧ last (req_messages req) = Some synthetic
  ∧ (∀ msg, name msg = User → label_of msg = py "[User]: ")
  ∧ respond w self st = (emit (ECreate req) st, create w (trace st) req)
  ∧ history (respond w self st).1 = history st
  ∧ (∀ st', agent_turn up w ags st = Next st' →
       ∃ who response,
         history st' = history st ++ [mkMessage assistant who response]).
Proof.
  intros Hhist Hrole synthetic req.
  assert (Hmsgs : req_messages req
                  = map project (history st) ++ [synthetic]).
  { unfold req, request_of, build_messages. simpl.
    rewrite Hhist, map_app. simpl. rewrite last_snoc. simpl.
    by rewrite Hrole. }
  split.
  { rewrite Hmsgs. f_equal. apply map_ext. intros msg.
    unfold project. by rewrite label_of_eq, <- !app_assoc. }
  split; [by rewrite Hmsgs, last_snoc|].
  split; [intros msg Hmsg; by rewrite label_of_eq, Hmsg|].
  split; [done|]. split; [done|].
  intros st' Hturn.
  destruct (agent_turn_cases w ags st)
    as [(e & s & He & _) | (who & agent & response & rq & _ & _ & _ & _ & Hn)];
    [congruence|].
  rewrite Hn in Hturn. injection Hturn as <-.
  exists who, response. by destruct (signals_ready up who response).
Qed.

(** ** Round accounting *)

Lemma agent_turns_snoc hist m :
  agent_turns (hist ++ [m])
  = agent_turns hist + (if bool_decide (role m = assistant) then 1 else 0).
Proof.
  unfold agent_turns. rewrite filter_app, length_app. f_equal.
  rewrite filter_cons, filter_nil. case_bool_decide; by case_decide.
Qed.

Lemma ready_turns_snoc hist m :
  ready_turns up (hist ++ [m])
  = ready_turns up hist + (if is_ready_turn up m then 1 else 0).
Proof.
  unfold ready_turns. rewrite filter_app, length_app. f_equal.
  rewrite filter_cons, filter_nil. destruct (is_ready_turn up m); by case_decide.
Qed.

Lemma human_turn_accounted hist line :
  agent_turns (hist ++ [mkMessage user User line]) = agent_turns hist
  ∧ ready_turns up (hist ++ [mkMessage user User line]) = ready_turns up hist.
Proof. rewrite agent_turns_snoc, ready_turns_snoc. simpl. lia. Qed.

Lemma agent_turn_accounted w ags st :
  accounted up st →
  match agent_turn up w ags st with
  | Next st' | Break st' | Raise _ st' => accounted up st'
  end.
Proof.
  unfold accounted. intros Hst.
  destruct (agent_turn_cases w ags st)
    as [(e & s & -> & Hh & Hr & _)
       | (who & agent & response & req & _ & _ & _ & _ & ->)].
  - by rewrite Hh, Hr.
  - destruct (signals_ready up who response) eqn:Hsig; simpl;
      rewrite agent_turns_snoc, ready_turns_snoc; unfold is_ready_turn; simpl;
      rewrite Hsig; lia.
Qed.

Lemma loop_body_accounted w ags st :
  accounted up st →
  match loop_body up w ags st with
  | Next st' | Break st' | Raise _ st' => accounted up st'
  end.
Proof.
  intros Hst. unfold loop_body. destruct (waiting_for_approval st).
  - destruct (human_turn_accounted (history st) (strip (input w (trace st))))
      as [Ha Hr].
    destruct (approval_gate_cases w st)
      as [(_ & s & -> & Hh & Hround & _) | (_ & ->)].
    + unfold accounted in *. rewrite Hh, Hround, Ha, Hr. done.
    + apply agent_turn_accounted. unfold accounted in *. simpl.
      rewrite Ha, Hr. done.
  - by apply agent_turn_accounted.
Qed.

Lemma loop_accounted fuel w ags st :
  accounted up st → accounted up (loop up fuel w ags st).2.
Proof.
  revert st. induction fuel as [|fuel IH]; intros st Hst; [done|].
  destruct (decide (round_idx st < MAX_ROUNDS)) as [Hlt | Hge].
  - rewrite loop_step by done.
    pose proof (loop_body_accounted w ags st Hst) as Hbody.
    destruct (loop_body up w ags st); [by apply IH | done..].
  - rewrite loop_done by lia. done.
Qed.

(** C8, as the code has it. A completed agent turn adds one to the round
    count unless it is a Product Owner turn that signals readiness, which
    leaves the count as it was; so at the end of every run the number of
    agent turns in the history is the round count plus the number of
    Product Owner turns that signalled readiness. *)
Theorem round_accounting fuel w user_request ags st st' m :
  (agent_turn up w ags st = Next st' →
   last (history st') = Some m →
   round_idx st' = if is_ready_turn up m then round_idx st else S (round_idx st))
  ∧ let final := (run_multi_agent_chat up fuel w user_request).2 in
    agent_turns (history final)
    = round_idx final + ready_turns up (history final).
Proof.
  split.
  - intros Hturn Hlast.
    destruct (agent_turn_cases w ags st)
      as [(e & s & He & _) | (who & agent & response & rq & _ & _ & _ & _ & Hn)];
      [congruence|].
    rewrite Hn in Hturn. injection Hturn as <-.
    destruct (signals_ready up who response) eqn:Hsig; simpl in *;
      rewrite last_snoc in Hlast; injection Hlast as <-;
      unfold is_ready_turn; simpl; by rewrite Hsig.
  - unfold run_multi_agent_chat. rewrite make_agents_eq.
    apply loop_accounted. done.
Qed.

(** a boolean check that no turn of a history signals readiness *)
Lemma no_ready_turn_forallb hist :
  forallb (λ m, negb (is_ready_turn up m)) hist = true →
  ∀ m, m ∈ hist → name m = ProductOwner →
       ¬ is_substring READY (upper up (content m)).
Proof.
  induction hist as [|x hist IH]; intros Hall m Hm Hname Hsub.
  - by apply elem_of_nil in Hm.
  - simpl in Hall. apply andb_true_iff in Hall as [Hx Hall].
    apply elem_of_cons in Hm as [-> | Hm]; [|by apply (IH Hall m)].
    assert (Hready : is_ready_turn up x = true)
      by (apply signals_ready_true; done).
    by rewrite Hready in Hx.
Qed.

(** ** The round cap *)

Lemma loop_body_history w ags st :
  match loop_body up w ags st with
  | Next st' | Break st' | Raise _ st' => ∃ new, history st' = history st ++ new
  end.
Proof.
  assert (Hturn : ∀ s, match agent_turn up w ags s with
                       | Next st' | Break st' | Raise _ st' =>
                           ∃ new, history st' = history s ++ new
                       end).
  { intros s. destruct (agent_turn_cases w ags s)
      as [(e & s' & -> & Hh & _)
         | (who & agent & response & req & _ & _ & _ & _ & ->)].
    - exists []. by rewrite app_nil_r.
    - destruct (signals_ready up who response); simpl; eauto. }
  unfold loop_body. destruct (waiting_for_approval st); [|apply Hturn].
  destruct (approval_gate_cases w st)
    as [(_ & s & -> & Hh & _) | (_ & ->)]; [eauto|].
  match goal with |- context [agent_turn up w ags ?s] =>
    specialize (Hturn s); destruct (agent_turn up w ags s) end;
    destruct Hturn as [new Hnew]; simpl in Hnew; rewrite Hnew, <- app_assoc; eauto.
Qed.

Lemma loop_history fuel w ags st :
  ∃ new, history (loop up fuel w ags st).2 = history st ++ new.
Proof.
  revert st. induction fuel as [|fuel IH]; intros st.
  - exists []. by rewrite app_nil_r.
  - destruct (decide (round_idx st < MAX_ROUNDS)) as [Hlt | Hge].
    + rewrite loop_step by done.
      pose proof (loop_body_history w ags st) as Hbody.
      destruct (loop_body up w ags st) as [s|s|e s]; destruct Hbody as [new Hnew];
        [|eauto..].
      destruct (IH s) as [new' Hnew']. rewrite Hnew', Hnew, <- app_assoc. eauto.
    + rewrite loop_done by lia. exists []. by rewrite app_nil_r.
Qed.

Lemma loop_rotating fuel w ags st :
  waiting_for_approval st = false →
  round_idx st ≤ MAX_ROUNDS →
  MAX_ROUNDS - round_idx st < fuel →
  let r := loop up fuel w ags st in
  (∀ e, r.1 ≠ Raised e) →
  (∀ m, m ∈ history r.2 → name m = ProductOwner →
        ¬ is_substring READY (upper up (content m))) →
  r.1 = MaxRoundsReached
  ∧ round_idx r.2 = MAX_ROUNDS
  ∧ agent_turns (history r.2)
    = agent_turns (history st) + (MAX_ROUNDS - round_idx st)
  ∧ ∃ extra, trace r.2 = trace st ++ extra ++ [EPrint NMaxRoundsReached]
             ∧ forallb rotation_effect extra = true.
Proof.
  revert st. cbv zeta.
  induction fuel as [|fuel IH]; intros st Hwait Hle Hfuel; [lia|].
  destruct (decide (round_idx st < MAX_ROUNDS)) as [Hlt | Hge].
  - rewrite loop_step by done. unfold loop_body. rewrite Hwait.
    destruct (agent_turn_cases w ags st)
      as [(e & s & -> & _)
         | (who & agent & response & req & _ & _ & _ & _ & ->)].
    { simpl. intros Habort. by destruct (Habort e). }
    destruct (signals_ready up who response) eqn:Hsig.
    + intros _ Hnone. exfalso.
      apply signals_ready_true in Hsig as [-> Hsub].
      match type of Hnone with context [loop up fuel w ags ?s] =>
        destruct (loop_history fuel w ags s) as [new Hnew] end.
      apply (Hnone (mkMessage assistant ProductOwner response)); [|done..].
      rewrite Hnew. cbn [history]. rewrite !elem_of_app, list_elem_of_singleton.
      auto.
    + intros Habort Hnone.
      match type of Hnone with context [loop up fuel w ags ?s] =>
        destruct (IH s) as (Ho & Hr & Hturns & extra & Htrace & Hextra);
          [done | cbn [round_idx]; lia | cbn [round_idx]; lia | done | done |] end.
      cbn [history trace round_idx] in Hturns, Htrace.
      rewrite agent_turns_snoc in Hturns. cbn [role] in Hturns.
      rewrite bool_decide_eq_true_2 in Hturns by done.
      repeat split; [done | done | lia |].
      exists ([EPrint (NThinking who); ECreate req;
               EPrint (NAgentSaid who response)] ++ extra).
      rewrite Htrace, <- !app_assoc. done.
  - rewrite loop_done by lia. simpl. intros _ _.
    repeat split; [lia | lia |]. exists []. done.
Qed.

(** C4. A run given enough passes, in which no call to the completion
    service raises and no Product Owner turn signals readiness, ends by the
    [else] of the [while] with the round count at [MAX_ROUNDS], which is 20,
    and exactly that many agent turns in the history; its trace holds only
    calls and notices of the rotation and ends with the notice that the
    maximum was reached. *)
Theorem round_cap fuel w user_request :
  MAX_ROUNDS < fuel →
  let r := run_multi_agent_chat up fuel w user_request in
  (∀ e, r.1 ≠ Raised e) →
  (∀ m, m ∈ history r.2 → name m = ProductOwner →
        ¬ is_substring READY (upper up (content m))) →
  MAX_ROUNDS = 20
  ∧ r.1 = MaxRoundsReached
  ∧ round_idx r.2 = MAX_ROUNDS
  ∧ agent_turns (history r.2) = MAX_ROUNDS
  ∧ forallb rotation_effect (trace r.2) = true
  ∧ last (trace r.2) = Some (EPrint NMaxRoundsReached).
Proof.
  intros Hfuel r Habort Hnone. subst r.
  unfold run_multi_agent_chat in *. rewrite make_agents_eq in *.
  destruct (loop_rotating fuel w
              (map (λ who, (who, agent_for
                                   (mkClient (getenv (environ w) "ANTHROPIC_API_KEY" []))
                                   who)) AGENT_ORDER)
              (start user_request))
    as (Ho & Hr & Hturns & extra & Htrace & Hextra);
    [done | cbn [start round_idx print emit]; lia
     | cbn [start round_idx print emit]; lia | done | done |].
  change (agent_turns (history (start user_request))) with 0 in Hturns.
  change (round_idx (start user_request)) with 0 in Hturns.
  rewrite Nat.sub_0_r in Hturns.
  repeat split; try done.
  - rewrite Htrace. simpl. rewrite forallb_app, Hextra. done.
  - rewrite Htrace, app_assoc. apply last_snoc.
Qed.

(** C9, as the code has it. With no [ANTHROPIC_API_KEY] in the environment
    the key of the client is the empty string and the session starts all
    the same: the banner and the request are printed, the loop is entered
    and the Business Analyst is invoked with that key.  The session stops
    there only if that call to the completion service raises, with no
    agent turn produced; if the call returns, its text becomes the first
    agent turn and the loop goes on.  The model name has a default too. *)
Theorem absent_credentials_start_session fuel w user_request :
  environ w !! "ANTHROPIC_API_KEY" = None →
  let human := mkMessage user User user_request in
  let first_call :=
    request_of w (agent_for (mkClient []) BusinessAnalyst) [human] in
  let tr := [EPrint NBanner; EPrint (NUserEcho user_request);
             EPrint (NThinking BusinessAnalyst)] in
  req_api_key first_call = []
  ∧ (environ w !! "CLAUDE_MODEL" = None →
     req_model first_call = py "claude-sonnet-4-20250514")
  ∧ run_multi_agent_chat up (S fuel) w user_request
    = match create w tr first_call with
      | None =>
          (Raised APIError, mkState [human] 0 0 false (tr ++ [ECreate first_call]))
      | Some response =>
          loop up fuel w (session_agents (mkClient []))
            (mkState [human; mkMessage assistant BusinessAnalyst response] 1 1 false
               (tr ++ [ECreate first_call;
                       EPrint (NAgentSaid BusinessAnalyst response)]))
      end.
Proof.
  intros Hkey human first_call tr. split; [done|]. split.
  { intros Hmodel. unfold first_call, request_of, MODEL, getenv. simpl.
    by rewrite Hmodel. }
  unfold run_multi_agent_chat, getenv. rewrite Hkey, make_agents_eq.
  rewrite loop_step by (change (0 < 20); lia).
  change (map _ AGENT_ORDER) with (session_agents (mkClient [])).
  unfold loop_body. simpl waiting_for_approval. cbv iota.
  rewrite agent_turn_eq, speak_eq.
  change (who_at (agent_idx (start user_request))) with BusinessAnalyst.
  change (history (start user_request)) with [human].
  change (trace (start user_request) ++ [EPrint (NThinking BusinessAnalyst)])
    with tr.
  fold first_call. destruct (create w tr first_call) as [response|]; done.
Qed.

End Properties.

(** * Runs on concrete transcripts *)

Local Open Scope nat_scope.

Lemma readiness_transition_witness :
  product_owner_ready ascii_upper (history owner_said) = true
  ∧ waiting_for_approval owner_said = true
  ∧ agent_idx owner_said = agent_idx owner_next
  ∧ round_idx owner_said = round_idx owner_next
  ∧ history owner_said = history owner_next ++ [owner_reply]
  ∧ (∀ before after,
       Forall (λ x, name x ≠ ProductOwner) after →
       product_owner_ready ascii_upper (before ++ owner_reply :: after) = true)
  ∧ (∀ before x after,
       name x = ProductOwner →
       Forall (λ y, name y ≠ ProductOwner) after →
       (product_owner_ready ascii_upper (before ++ x :: after) = true
        ↔ is_substring READY (upper ascii_upper (content x)))
       ∧ (product_owner_ready ascii_upper (before ++ x :: after) = false
          ↔ ¬ is_substring READY (upper ascii_upper (content x))))
  ∧ (∀ hist,
       Forall (λ x, name x ≠ ProductOwner) hist →
       product_owner_ready ascii_upper hist = false).
Proof.
  apply (readiness_transition ascii_upper approving_world no_client owner_next
           owner_said (history owner_next) owner_reply []).
  - vm_compute. reflexivity.
  - reflexivity.
  - reflexivity.
  - constructor.
  - exists (py "ALL GOOD. "), (py "."). vm_compute. reflexivity.
  - exists owner_reply. split; reflexivity.
Defined.

(** a signal of the Product Owner stops counting once a newer turn of the
    Product Owner lacks the phrase, whoever speaks afterwards; what another
    agent says never counts *)
Example older_signal_does_not_count :
  product_owner_ready ascii_upper
    [calc; owner_reply; mkMessage user User (py "please add a footer");
     mkMessage assistant ProductOwner (py "Not ready yet.");
     mkMessage assistant BusinessAnalyst (py "plan")] = false
  ∧ product_owner_ready ascii_upper
      [calc; mkMessage assistant ProductOwner (py "Not ready yet.");
       owner_reply; mkMessage assistant BusinessAnalyst (py "plan")] = true
  ∧ product_owner_ready ascii_upper
      [calc; mkMessage assistant BusinessAnalyst (content owner_reply)] = false.
Proof. vm_compute. repeat split. Qed.

Lemma approval_gate_decision_witness :
  (should_terminate ascii_upper
     (history owner_said ++ [mkMessage user User (py "Approved")]) = true
   ∧ ∃ st', approval_gate ascii_upper approving_world owner_said = Break st'
            ∧ loop ascii_upper 1 approving_world (session_agents no_client)
                owner_said = (Approved, st')
            ∧ history st'
              = history owner_said ++ [mkMessage user User (py "Approved")])
  ∧ (should_terminate ascii_upper
       (history owner_said ++ [mkMessage user User (py "please add a footer")])
     = false
     ∧ ∃ st', approval_gate ascii_upper remarking_world owner_said = Next st'
              ∧ waiting_for_approval st' = false
              ∧ list_index ProductOwner AGENT_ORDER = Some (agent_idx st')
              ∧ AGENT_ORDER !! (agent_idx st' mod length AGENT_ORDER)
                = Some ProductOwner
              ∧ history st'
                = history owner_said
                  ++ [mkMessage user User (py "please add a footer")]
              ∧ round_idx st' = round_idx owner_said
              ∧ loop_body ascii_upper remarking_world (session_agents no_client)
                  owner_said
                = agent_turn ascii_upper remarking_world
                    (session_agents no_client) st').
Proof.
  split.
  - apply (approval_gate_decision ascii_upper approving_world
             (session_agents no_client) owner_said 0);
      [reflexivity | unfold MAX_ROUNDS; simpl; lia | vm_compute; reflexivity].
  - apply (approval_gate_decision ascii_upper remarking_world
             (session_agents no_client) owner_said 0);
      [reflexivity | unfold MAX_ROUNDS; simpl; lia | vm_compute; discriminate].
Defined.

Lemma never_awaiting_witness : waiting_for_approval after_three = false.
Proof.
  apply (never_awaiting_without_signal ascii_upper quiet_world no_client
           (content calc) 3 after_three).
  - vm_compute. reflexivity.
  - apply no_ready_turn_forallb. vm_compute. reflexivity.
Defined.

Lemma round_cap_witness :
  let r := run_multi_agent_chat ascii_upper 21 quiet_world (content calc) in
  MAX_ROUNDS = 20
  ∧ r.1 = MaxRoundsReached
  ∧ round_idx r.2 = MAX_ROUNDS
  ∧ agent_turns (history r.2) = MAX_ROUNDS
  ∧ forallb rotation_effect (trace r.2) = true
  ∧ last (trace r.2) = Some (EPrint NMaxRoundsReached).
Proof.
  apply (round_cap ascii_upper 21 quiet_world (content calc)).
  - unfold MAX_ROUNDS. lia.
  - intros e. vm_compute. discriminate.
  - apply no_ready_turn_forallb. vm_compute. reflexivity.
Defined.

Lemma extract_html_latest_block_witness :
  ∃ older m newer g,
    reviewed_history = older ++ m :: newer
    ∧ has_html_block (content m)
    ∧ Forall (λ m', ¬ has_html_block (content m')) newer
    ∧ search (content m) = Some g
    ∧ block_text (content m) g
    ∧ extract_html reviewed_history = Some (strip g)
    ∧ ∀ older', extract_html (older' ++ m :: newer) = Some (strip g).
Proof.
  apply (extract_html_latest_block reviewed_history).
  exists engineer_two_blocks. split.
  - unfold reviewed_history. repeat constructor.
  - apply search_has_block. vm_compute. eauto.
Defined.

Example extract_html_reviewed :
  extract_html reviewed_history = Some (py "<p>one</p>").
Proof. reflexivity. Qed.

Lemma extraction_miss_witness :
  extract_html
    (history waiting_without_html ++ [mkMessage user User (py "Approved")])
  = None
  ∧ loop ascii_upper 1 approving_world (session_agents no_client)
      waiting_without_html
    = (Approved,
       mkState
         (history waiting_without_html ++ [mkMessage user User (py "Approved")])
         1 2 true [EInput; EPrint NApprovedReceived; EPrint NNoHtmlFound]).
Proof.
  apply (extraction_miss_skips_publish ascii_upper approving_world
           (session_agents no_client) waiting_without_html 0).
  - reflexivity.
  - unfold MAX_ROUNDS. simpl. lia.
  - vm_compute. reflexivity.
  - apply no_block_forallb. vm_compute. reflexivity.
Defined.

Lemma invoker_projection_witness :
  last (req_messages
          (request_of quiet_world (agent_for no_client ProductOwner)
             (history owner_next)))
  = Some (mkOutMsg user (py "[System]: Please continue as ProductOwner.")).
Proof.
  destruct (invoker_projection ascii_upper quiet_world
              (agent_for no_client ProductOwner) (session_agents no_client)
              owner_next
              [calc; mkMessage assistant BusinessAnalyst (py "plan")]
              (mkMessage assistant SoftwareEngineer (py "```html <p>v1</p> ```"))
              eq_refl eq_refl) as (_ & Hlast & _).
  exact Hlast.
Defined.

(** C8 as stated fails: the Product Owner's turn that signals readiness is
    a completed agent turn and leaves the round count where it was, and a
    run approved after three agent turns ends with a round count of two. *)
Lemma round_count_skips_ready_turn :
  agent_turn ascii_upper approving_world (session_agents no_client) owner_next
  = Next owner_said
  ∧ round_idx owner_said ≠ S (round_idx owner_next)
  ∧ let final :=
      (run_multi_agent_chat ascii_upper 10 approving_world (content calc)).2 in
    agent_turns (history final) = 3 ∧ round_idx final = 2
    ∧ round_idx final ≠ agent_turns (history final).
Proof.
  split; [vm_compute; reflexivity|]. split; [simpl; lia|].
  vm_compute. repeat split; lia.
Qed.

Lemma round_accounting_witness :
  round_idx owner_said = round_idx owner_next
  ∧ let final :=
      (run_multi_agent_chat ascii_upper 10 approving_world (content calc)).2 in
    agent_turns (history final)
    = round_idx final + ready_turns ascii_upper (history final).
Proof.
  destruct (round_accounting ascii_upper 10 approving_world (content calc)
              (session_agents no_client) owner_next owner_said owner_reply)
    as [Hturn Hrun].
  split; [|exact Hrun].
  apply Hturn; [vm_compute; reflexivity | reflexivity].
Defined.

(** C9 as stated fails: with no key in the environment the banner is
    printed and the Business Analyst is invoked; what stops the session is
    the completion service refusing that call. *)
Lemma absent_credentials_session_begins :
  environ keyless_world !! "ANTHROPIC_API_KEY" = None
  ∧ ¬ fails_at_startup
        (run_multi_agent_chat ascii_upper 30 keyless_world (content calc))
  ∧ ∃ req, req_api_key req = []
           ∧ (run_multi_agent_chat ascii_upper 30 keyless_world (content calc)).2
             = mkState [calc] 0 0 false
                 [EPrint NBanner; EPrint (NUserEcho (content calc));
                  EPrint (NThinking BusinessAnalyst); ECreate req].
Proof.
  split; [reflexivity|]. split.
  - intros [_ Htrace]. vm_compute in Htrace. discriminate.
  - eexists. split; [|vm_compute; reflexivity]. reflexivity.
Qed.

Lemma absent_credentials_witness :
  run_multi_agent_chat ascii_upper 30 keyless_world (content calc)
  = (Raised APIError,
     mkState [calc] 0 0 false
       [EPrint NBanner; EPrint (NUserEcho (content calc));
        EPrint (NThinking BusinessAnalyst);
        ECreate (request_of keyless_world (agent_for no_client BusinessAnalyst)
                   [calc])]).
Proof.
  destruct (absent_credentials_start_session ascii_upper 29 keyless_world
              (content calc) eq_refl) as (_ & _ & Hrun).
  exact Hrun.
Defined.

(** the rotation without a readiness signal: Business Analyst, Software
    Engineer, Product Owner, and again *)
Example rotation_order :
  map name (history (run_multi_agent_chat ascii_upper 7 quiet_world
                       (content calc)).2)
  = [User; BusinessAnalyst; SoftwareEngineer; ProductOwner;
     BusinessAnalyst; SoftwareEngineer; ProductOwner; BusinessAnalyst].
Proof. vm_compute. reflexivity. Qed.

(** an approved run: three agent turns, then the first block of the newest
    turn that has one is written and pushed *)
Example approved_run :
  let r := run_multi_agent_chat ascii_upper 10 approving_world (content calc) in
  r.1 = Approved
  ∧ map name (history r.2)
    = [User; BusinessAnalyst; SoftwareEngineer; ProductOwner; User]
  ∧ filter (λ e, rotation_effect e = false) (trace r.2)
    = [EPrint NReadyForApproval; EInput; EPrint NApprovedReceived;
       EWrite index_html (py "<p>one</p>"); EPrint (NSaved index_html);
       EPrint NPushing;
       EPrint (NRunLabel (py "Staging index.html"));
       ERun [py "git"; py "add"; index_html];
       EPrint (NRunLabel (py "Committing"));
       ERun [py "git"; py "commit"; py "-m";
             py "Auto-push approved app [multi-agent]"];
       EPrint (NRunLabel (py "Pushing to main"));
       ERun [py "git"; py "push"; py "origin"; py "main"];
       EPrint NPushSucceeded].
Proof. vm_compute. repeat split. Qed.

(** an empty line is a remark like any other *)
Example empty_line_is_feedback :
  approval_gate ascii_upper keyless_world owner_said
  = Next (mkState (history owner_said ++ [mkMessage user User []]) 2 2 false
            (trace owner_said ++ [EInput])).
Proof. vm_compute. reflexivity. Qed.

(** * Further properties of the code *)

Section Further.

(** the upper-case table of the interpreter *)
Variable up : N -> pystr.

Ltac simpl_state :=
  unfold approved_state, save_html, print, emit, append, set_waiting,
    set_round_idx, set_agent_idx;
  simpl; rewrite <- ?app_assoc; simpl.

Ltac flatten := repeat (progress simpl || rewrite <- app_assoc).

(** ** The scans of the history *)

Lemma should_terminate_snoc_any hist m :
  should_terminate up (hist ++ [m])
  = if bool_decide (name m = User)
    then bool_decide (upper up (strip (content m)) = py "APPROVED")
    else should_terminate up hist.
Proof. unfold should_terminate. rewrite rev_app_distr. done. Qed.

(** X1. [should_terminate] is decided by the newest turn named [User]
    alone: it is true exactly when there is such a turn and its stripped,
    upper-cased text is [APPROVED]; an approval followed by a later human
    turn does not count, and a history with no human turn gives false. *)
Theorem should_terminate_latest_user (hist : list Message) :
  should_terminate up hist = true
  ↔ ∃ older m newer,
      hist = older ++ m :: newer
      ∧ name m = User
      ∧ Forall (λ x, name x ≠ User) newer
      ∧ upper up (strip (content m)) = py "APPROVED".
Proof.
  induction hist as [|x hist IH] using rev_ind.
  - split; [done|]. intros (older & m & newer & Heq & _).
    by destruct older.
  - rewrite should_terminate_snoc_any. case_bool_decide as Hx.
    + rewrite bool_decide_eq_true. split.
      * intros Happ. exists hist, x, []. repeat split; done.
      * intros (older & m & newer & Heq & Hm & Hnewer & Happ).
        destruct (snoc_at_latest (λ y, name y = User) _ _ _ _ _ Heq Hx Hnewer)
          as (_ & -> & _).
        done.
    + rewrite IH. split.
      * intros (older & m & newer & -> & Hm & Hnewer & Happ).
        exists older, m, (newer ++ [x]). rewrite <- app_assoc.
        repeat split; try done. apply Forall_app. split; [done|].
        by constructor.
      * intros (older & m & newer & Heq & Hm & Hnewer & Happ).
        destruct newer as [|y newer _] using rev_ind.
        { apply app_inj_tail in Heq as [_ ->]. done. }
        rewrite app_comm_cons, app_assoc in Heq.
        apply app_inj_tail in Heq as [-> ->].
        apply Forall_app in Hnewer as [Hnewer _]. eauto 10.
Qed.

(** X2. [product_owner_ready] is decided by the newest turn named
    [ProductOwner] alone: it is true exactly when there is such a turn and
    its upper-cased content holds the phrase; an older readiness signal
    followed by a newer Product Owner turn without the phrase does not
    count. *)
Theorem product_owner_ready_latest_turn (hist : list Message) :
  product_owner_ready up hist = true
  ↔ ∃ older m newer,
      hist = older ++ m :: newer
      ∧ name m = ProductOwner
      ∧ Forall (λ x, name x ≠ ProductOwner) newer
      ∧ is_substring READY (upper up (content m)).
Proof.
  split.
  - induction hist as [|x hist IH] using rev_ind; [done|].
    rewrite product_owner_ready_snoc. case_bool_decide as Hx.
    + intros Hready%contains_spec. exists hist, x, []. repeat split; done.
    + intros (older & m & newer & -> & Hm & Hnewer & Hready)%IH.
      exists older, m, (newer ++ [x]). rewrite <- app_assoc.
      repeat split; try done. apply Forall_app. split; [done|].
      by constructor.
  - intros (older & m & newer & -> & Hm & Hnewer & Hready).
    rewrite product_owner_ready_at by done. by apply contains_spec.
Qed.

(** ** The messages sent *)

(** X3. For a history that is not empty, the messages [respond] sends
    always end with a user-role message; they are the projected turns of
    the history, followed by at most one more message, and by none when
    the last turn already has the user role. *)
Theorem outbound_ends_with_user (self : ClaudeAgent) (hist : list Message) :
  hist ≠ [] →
  (∃ m, last (build_messages self hist) = Some m ∧ out_role m = user)
  ∧ take (length hist) (build_messages self hist) = map project hist
  ∧ (length (build_messages self hist) ≤ S (length hist))%nat
  ∧ (∀ m, last hist = Some m → role m = user →
          build_messages self hist = map project hist).
Proof.
  destruct hist as [|x hist _] using rev_ind; [done|]. intros _.
  unfold build_messages. rewrite map_app. simpl. rewrite last_snoc. simpl.
  rewrite <- (length_map project (hist ++ [x])), map_app. simpl.
  case_bool_decide as Hx.
  - split; [exists (continue_as (agent_name self)); by rewrite last_snoc|].
    split; [by rewrite take_app_length|].
    split; [rewrite !length_app; simpl; lia|].
    intros m Hm Hrole. rewrite last_snoc in Hm. injection Hm as <-. congruence.
  - split.
    { exists (project x). rewrite last_snoc. split; [done|]. simpl.
      by destruct (role x). }
    split; [by rewrite firstn_all|]. split; [lia|]. done.
Qed.

(** ** One pass of the loop, for the agents of a session *)

Lemma run_multi_agent_chat_eq fuel w user_request :
  run_multi_agent_chat up fuel w user_request
  = loop up fuel w
      (session_agents (mkClient (getenv (environ w) "ANTHROPIC_API_KEY" [])))
      (start user_request).
Proof. reflexivity. Qed.

(** the three ways a turn of the rotation ends *)
Lemma session_turn_cases w c s :
  let who := who_at (agent_idx s) in
  let req := request_of w (agent_for c who) (history s) in
  let tr := trace s ++ [EPrint (NThinking who)] in
  (create w tr req = None
   ∧ agent_turn up w (session_agents c) s
     = Raise APIError
         (mkState (history s) (round_idx s) (agent_idx s)
            (waiting_for_approval s) (tr ++ [ECreate req])))
  ∨ (∃ response,
       create w tr req = Some response
       ∧ signals_ready up who response = true
       ∧ agent_turn up w (session_agents c) s
         = Next (mkState (history s ++ [mkMessage assistant who response])
                   (round_idx s) (agent_idx s) true
                   (tr ++ [ECreate req; EPrint (NAgentSaid who response);
                           EPrint NReadyForApproval])))
  ∨ (∃ response,
       create w tr req = Some response
       ∧ signals_ready up who response = false
       ∧ agent_turn up w (session_agents c) s
         = Next (mkState (history s ++ [mkMessage assistant who response])
                   (S (round_idx s)) (S (agent_idx s)) (waiting_for_approval s)
                   (tr ++ [ECreate req; EPrint (NAgentSaid who response)]))).
Proof.
  intros who req tr. rewrite agent_turn_eq, speak_eq. fold who req tr.
  cbv zeta. destruct (create w tr req) as [response|]; [|left; split; [done|]].
  - destruct (signals_ready up who response) eqn:Hsig.
    + right. left. exists response. by rewrite <- app_assoc.
    + right. right. exists response. done.
  - subst who req tr. simpl_state. done.
Qed.

(** a pass is an approval, or a turn taken from the state the pass found
    or from the state the gate resumed *)
Lemma loop_body_split w ags st :
  (waiting_for_approval st = true
   ∧ upper up (strip (input w (trace st))) = py "APPROVED"
   ∧ loop_body up w ags st = Break (after_approval w st))
  ∨ (waiting_for_approval st = true
     ∧ upper up (strip (input w (trace st))) ≠ py "APPROVED"
     ∧ loop_body up w ags st = agent_turn up w ags (resumed w st))
  ∨ (waiting_for_approval st = false
     ∧ loop_body up w ags st = agent_turn up w ags st).
Proof.
  unfold loop_body. destruct (waiting_for_approval st); [|by right; right].
  rewrite approval_gate_eq. simpl. case_bool_decide as Happ.
  - left. done.
  - right. left. done.
Qed.

(** a property kept by every pass holds at the end of every run *)
Lemma loop_invariant (w : World) (ags : list (pystr * ClaudeAgent))
    (I : State → Prop) (F : Outcome → State → Prop) :
  (∀ st, I st → (round_idx st < MAX_ROUNDS)%nat →
         match loop_body up w ags st with
         | Next st' => I st'
         | Break st' => F Approved st'
         | Raise e st' => F (Raised e) st'
         end) →
  (∀ st, I st → F OutOfFuel st) →
  (∀ st, I st → F MaxRoundsReached (print NMaxRoundsReached st)) →
  ∀ fuel st, I st → F (loop up fuel w ags st).1 (loop up fuel w ags st).2.
Proof.
  intros Hbody Hfuel Hcap fuel. induction fuel as [|fuel IH]; intros st Hst.
  - by apply Hfuel.
  - destruct (decide (round_idx st < MAX_ROUNDS)%nat) as [Hlt | Hge].
    + rewrite loop_step by done. specialize (Hbody st Hst Hlt).
      destruct (loop_body up w ags st); [by apply IH | done..].
    + rewrite loop_done by lia. by apply Hcap.
Qed.

(** the states met at the head of the loop keep what every pass keeps *)
Lemma loop_head_invariant (w : World) (ags : list (pystr * ClaudeAgent))
    (I : State → Prop) :
  (∀ st st', I st → (round_idx st < MAX_ROUNDS)%nat →
             loop_body up w ags st = Next st' → I st') →
  ∀ n st st', I st → loop_head up n w ags st = Some st' → I st'.
Proof.
  intros Hbody n. induction n as [|n IH]; intros st st' Hst.
  - by intros [= <-].
  - intros (st1 & Hhead & Hlt & Hnext)%loop_head_last. eauto.
Qed.

(** ** The lookups of the loop *)

(** X13. The loop's own lookups never fail.  Building the table of agents
    finds a persona for each name of [AGENT_ORDER] and keys the table by
    those names; whatever [agent_idx] is, [AGENT_ORDER[agent_idx % len]]
    is a name of the rotation and that name is a key of the table, under
    which the agent of that name on the session's client is found, so the
    turn gets as far as [respond]; and [AGENT_ORDER.index] finds the
    Product Owner, at position 2. *)
Theorem rotation_lookups_never_fail w c st :
  (make_agents c = Some (session_agents c)
   ∧ map fst (session_agents c) = AGENT_ORDER)
  ∧ (∃ who agent,
       AGENT_ORDER !! (agent_idx st mod length AGENT_ORDER)%nat = Some who
       ∧ dict_get (session_agents c) who = Some agent
       ∧ agent_name agent = who
       ∧ agent_client agent = c
       ∧ dict_get PERSONAS who = Some (agent_system agent)
       ∧ agent_turn up w (session_agents c) st = speak up w who agent st)
  ∧ list_index ProductOwner AGENT_ORDER = Some 2%nat
  ∧ AGENT_ORDER !! 2%nat = Some ProductOwner.
Proof.
  split; [done|]. split; [|done].
  exists (who_at (agent_idx st)), (agent_for c (who_at (agent_idx st))).
  split; [apply who_at_position|].
  assert (Hcases : who_at (agent_idx st) = BusinessAnalyst
                   ∨ who_at (agent_idx st) = SoftwareEngineer
                   ∨ who_at (agent_idx st) = ProductOwner).
  { unfold who_at. destruct (agent_idx st mod 3)%nat as [|[|[|n]]]; auto. }
  split; [|split; [done|split; [done|split; [|apply agent_turn_eq]]]];
    destruct Hcases as [-> | [-> | ->]]; done.
Qed.

(** ** What every run keeps *)

Lemma after_approval_fields w st :
  history (after_approval w st)
  = history st ++ [mkMessage user User (strip (input w (trace st)))]
  ∧ round_idx (after_approval w st) = round_idx st
  ∧ agent_idx (after_approval w st) = agent_idx st
  ∧ waiting_for_approval (after_approval w st) = waiting_for_approval st.
Proof.
  unfold after_approval. destruct (extract_html _) as [[|c html]|]; [done| |done].
  pose proof (push_to_github_fields w
                (save_html (c :: html) index_html (approved_state w st)))
    as (Hh & Hr & Ha & Hw & _).
  rewrite Hh, Hr, Ha, Hw. done.
Qed.

Lemma who_at_in_order i : who_at i ∈ AGENT_ORDER.
Proof. apply list_elem_of_lookup. eexists. apply who_at_position. Qed.

(** a property of histories kept by appending a human turn and by
    appending an agent's turn holds of the history a run ends with *)
Lemma history_invariant (P : list Message → Prop) :
  (∀ h line, P h → P (h ++ [mkMessage user User line])) →
  (∀ h i response, P h → P (h ++ [mkMessage assistant (who_at i) response])) →
  ∀ fuel w c st,
    P (history st) → P (history (loop up fuel w (session_agents c) st).2).
Proof.
  intros Hhuman Hagent fuel w c.
  apply (loop_invariant w (session_agents c) (λ st, P (history st))
           (λ _ st, P (history st))); [|done..].
  intros st Hst _.
  assert (Hturn : ∀ s, P (history s) →
            match agent_turn up w (session_agents c) s with
            | Next st' | Break st' | Raise _ st' => P (history st')
            end).
  { intros s Hs. destruct (session_turn_cases w c s)
      as [[_ ->] | [(r & _ & _ & ->) | (r & _ & _ & ->)]]; simpl; auto. }
  destruct (loop_body_split w (session_agents c) st)
    as [(_ & _ & ->) | [(_ & _ & ->) | (_ & ->)]].
  - destruct (after_approval_fields w st) as [-> _]. auto.
  - apply Hturn. simpl. auto.
  - by apply Hturn.
Qed.

(** X11. The history a run ends with starts with the user's request and
    is well formed: every turn is a user-role turn named [User] or an
    assistant-role turn named after an agent of the rotation. *)
Theorem history_well_formed fuel w user_request :
  let hist := history (run_multi_agent_chat up fuel w user_request).2 in
  (∃ rest, hist = mkMessage user User user_request :: rest)
  ∧ Forall well_formed_turn hist.
Proof.
  rewrite run_multi_agent_chat_eq.
  apply (history_invariant
           (λ h, (∃ rest, h = mkMessage user User user_request :: rest)
                 ∧ Forall well_formed_turn h)).
  - intros h line [[rest ->] Hwf]. split; [by eexists|].
    apply Forall_app. split; [done|]. constructor; [|done]. by left.
  - intros h i response [[rest ->] Hwf]. split; [by eexists|].
    apply Forall_app. split; [done|]. constructor; [|done].
    right. split; [done|]. apply who_at_in_order.
  - split; [by exists []|]. constructor; [|done]. by left.
Qed.

Lemma session_turn_waits w c s :
  waiting_for_approval s = false →
  match agent_turn up w (session_agents c) s with
  | Next st' => waits_on_signal up st'
  | Break _ => False
  | Raise _ _ => True
  end.
Proof.
  intros Hs. destruct (session_turn_cases w c s)
    as [[_ ->] | [(r & _ & Hsig & ->) | (r & _ & _ & ->)]]; [done| |].
  - intros _. apply signals_ready_true in Hsig as [-> Hsub]. simpl. eauto 10.
  - unfold waits_on_signal. simpl. congruence.
Qed.

(** X14. A run ends approved only on a history whose last two turns are a
    Product Owner turn that holds the readiness phrase and, right after
    it, a human turn whose upper-cased text is [APPROVED]. *)
Theorem approved_after_signal fuel w user_request :
  let r := run_multi_agent_chat up fuel w user_request in
  r.1 = Approved →
  ∃ h po u,
    history r.2 = h ++ [po; u]
    ∧ name po = ProductOwner ∧ role po = assistant
    ∧ is_substring READY (upper up (content po))
    ∧ name u = User ∧ role u = user
    ∧ upper up (content u) = py "APPROVED".
Proof.
  cbv zeta. rewrite run_multi_agent_chat_eq. set (c := mkClient _).
  apply (loop_invariant w (session_agents c) (waits_on_signal up)
           (λ o st, o = Approved →
              ∃ h po u, history st = h ++ [po; u]
                ∧ name po = ProductOwner ∧ role po = assistant
                ∧ is_substring READY (upper up (content po))
                ∧ name u = User ∧ role u = user
                ∧ upper up (content u) = py "APPROVED")); [|done..|done].
  intros st Hst _.
  destruct (loop_body_split w (session_agents c) st)
    as [(Hw & Happ & ->) | [(_ & _ & ->) | (Hw & ->)]].
  - intros _. destruct (Hst Hw) as (h & po & Hh & Hpo & Hrole & Hsub).
    destruct (after_approval_fields w st) as [-> _]. rewrite Hh, <- app_assoc.
    exists h, po, (mkMessage user User (strip (input w (trace st)))).
    repeat split; done.
  - pose proof (session_turn_waits w c (resumed w st) eq_refl) as Hturn.
    by destruct (agent_turn up w (session_agents c) (resumed w st)).
  - pose proof (session_turn_waits w c st Hw) as Hturn.
    by destruct (agent_turn up w (session_agents c) st).
Qed.

(** X5. Whenever the loop is at its head waiting for approval, the round
    count is still below [MAX_ROUNDS] and the agent index is at the
    Product Owner's position: the cap never ends a run that is waiting,
    so the human is always asked. *)
Theorem waiting_is_below_the_cap w c user_request n st :
  loop_head up n w (session_agents c) (start user_request) = Some st →
  waiting_for_approval st = true →
  (round_idx st < MAX_ROUNDS)%nat
  ∧ AGENT_ORDER !! (agent_idx st mod length AGENT_ORDER)%nat = Some ProductOwner.
Proof.
  intros Hhead Hwait.
  assert (Hstep : ∀ s s',
            (waiting_for_approval s = true →
             (round_idx s < MAX_ROUNDS)%nat
             ∧ who_at (agent_idx s) = ProductOwner) →
            (round_idx s < MAX_ROUNDS)%nat →
            loop_body up w (session_agents c) s = Next s' →
            waiting_for_approval s' = true →
            (round_idx s' < MAX_ROUNDS)%nat
            ∧ who_at (agent_idx s') = ProductOwner).
  { intros s s' _ Hlt Hnext Hw'.
    assert (Hturn : ∀ s0, round_idx s0 = round_idx s →
              waiting_for_approval s0 = false →
              agent_turn up w (session_agents c) s0 = Next s' →
              (round_idx s' < MAX_ROUNDS)%nat
              ∧ who_at (agent_idx s') = ProductOwner).
    { intros s0 Hround Hw0 Hs0. destruct (session_turn_cases w c s0)
        as [[_ He] | [(r & _ & Hsig & He) | (r & _ & _ & He)]];
        rewrite He in Hs0; [done|..]; injection Hs0 as <-.
      - apply signals_ready_true in Hsig as [Hwho _]. simpl. split; [lia|done].
      - simpl in Hw'. congruence. }
    destruct (loop_body_split w (session_agents c) s)
      as [(_ & _ & Hb) | [(_ & _ & Hb) | (Hw & Hb)]];
      rewrite Hb in Hnext; [done | by apply (Hturn (resumed w s)) |].
    by apply (Hturn s). }
  assert (Hinv : (round_idx st < MAX_ROUNDS)%nat
                 ∧ who_at (agent_idx st) = ProductOwner).
  { by apply (loop_head_invariant w (session_agents c) _ Hstep n
                (start user_request) st). }
  destruct Hinv as [Hlt Hwho]. split; [done|]. by rewrite who_at_position, Hwho.
Qed.

(** ** The rotation *)

(** X4. As long as no Product Owner turn signals readiness, the agents
    speak in the fixed order Business Analyst, Software Engineer, Product
    Owner, and again: after [n] passes the history is the request
    followed by [n] agent turns, the [k]-th of them by the agent at
    position [k mod 3], and the round count and the agent index are both
    [n]. *)
Theorem rotation_order_kept w c user_request n st :
  loop_head up n w (session_agents c) (start user_request) = Some st →
  (∀ m, m ∈ history st → name m = ProductOwner →
        ¬ is_substring READY (upper up (content m))) →
  round_idx st = n
  ∧ agent_idx st = n
  ∧ map name (history st) = User :: map who_at (seq 0 n)
  ∧ map role (history st) = user :: replicate n assistant.
Proof.
  revert st. induction n as [|n IH]; intros st Hhead Hnone.
  - injection Hhead as <-. done.
  - apply loop_head_last in Hhead as (st1 & Hhead & Hlt & Hbody).
    pose proof (loop_body_history up w (session_agents c) st1) as Hext.
    rewrite Hbody in Hext. destruct Hext as [new Hnew].
    destruct (IH st1 Hhead) as (Hround & Hidx & Hnames & Hroles).
    { intros m Hm. apply Hnone. rewrite Hnew. apply elem_of_app. by left. }
    assert (Hw1 : waiting_for_approval st1 = false).
    { destruct (waiting_for_approval st1) eqn:Hw; [|done]. exfalso.
      destruct n as [|n']; [by injection Hhead as <-|].
      apply loop_head_last in Hhead as (st0 & _ & _ & Hbody0).
      destruct (loop_body_waiting up _ _ _ _ Hbody0 Hw)
        as (h & m & Hh & Hm & Hsub).
      apply (Hnone m); [|done..]. rewrite Hnew, Hh.
      rewrite !elem_of_app, list_elem_of_singleton. auto. }
    destruct (loop_body_split w (session_agents c) st1)
      as [(Hw & _) | [(Hw & _) | (_ & Hb)]]; [congruence..|].
    rewrite Hb in Hbody. destruct (session_turn_cases w c st1)
      as [[_ He] | [(r & _ & Hsig & He) | (r & _ & _ & He)]];
      rewrite He in Hbody; [done|..]; injection Hbody as <-.
    + exfalso. apply signals_ready_true in Hsig as [Hwho Hsub].
      apply (Hnone (mkMessage assistant (who_at (agent_idx st1)) r));
        [|done..]. simpl. rewrite elem_of_app, list_elem_of_singleton. auto.
    + cbn [history round_idx agent_idx].
      rewrite !map_app, Hnames, Hroles, Hround, Hidx, seq_S, map_app.
      repeat split; try done.
      cbn [map role app]. f_equal. symmetry. apply replicate_cons_app.
Qed.

(** X6. [MAX_ROUNDS] does not bound the loop. When every reply of the
    completion service holds the readiness phrase and the human never
    types [APPROVED], the loop is still running after any number of passes
    and its round count never exceeds 2. *)
Theorem remarks_outlast_the_cap w c user_request :
  (∀ tr req, ∃ r, create w tr req = Some r
                  ∧ is_substring READY (upper up r)) →
  (∀ tr, upper up (strip (input w tr)) ≠ py "APPROVED") →
  ∀ n, ∃ st,
    loop_head up n w (session_agents c) (start user_request) = Some st
    ∧ (round_idx st ≤ 2)%nat.
Proof.
  intros Hcreate Hinput.
  assert (Hturn : ∀ s, waiting_for_approval s = false →
            agent_idx s = round_idx s → (round_idx s ≤ 2)%nat →
            ∃ s', agent_turn up w (session_agents c) s = Next s' ∧ cycling s').
  { intros s Hw Hidx Hle.
    destruct (session_turn_cases w c s)
      as [[Hnone _] | [(r & _ & Hsig & ->) | (r & Hr & Hsig & ->)]].
    - destruct (Hcreate (trace s ++ [EPrint (NThinking (who_at (agent_idx s)))])
                  (request_of w (agent_for c (who_at (agent_idx s))) (history s)))
        as (r & Hr & _). congruence.
    - eexists. split; [done|]. right. simpl. split; [done|].
      apply signals_ready_true in Hsig as [Hwho _]. rewrite Hidx in Hwho.
      destruct (round_idx s) as [|[|[|k]]]; [done..|lia].
    - eexists. split; [done|]. left. simpl. rewrite Hw, Hidx.
      repeat split; try done.
      destruct (Hcreate (trace s ++ [EPrint (NThinking (who_at (agent_idx s)))])
                  (request_of w (agent_for c (who_at (agent_idx s))) (history s)))
        as (r' & Hr' & Hsub).
      assert (r' = r) as -> by congruence.
      destruct (decide (round_idx s = 2)) as [H2 | H2]; [|lia].
      assert (signals_ready up (who_at (agent_idx s)) r = true); [|congruence].
      apply signals_ready_true. by rewrite Hidx, H2. }
  assert (Hbody : ∀ s, cycling s →
            ∃ s', loop_body up w (session_agents c) s = Next s' ∧ cycling s').
  { intros s [(Hw & Hidx & Hle) | (Hw & Hround)].
    - destruct (loop_body_split w (session_agents c) s)
        as [(Hw' & _) | [(Hw' & _) | (_ & ->)]]; [congruence..|]. by apply Hturn.
    - destruct (loop_body_split w (session_agents c) s)
        as [(_ & Happ & _) | [(_ & _ & ->) | (Hw' & _)]];
        [by destruct (Hinput (trace s)) | | congruence].
      apply Hturn; simpl; [done | done | lia]. }
  assert (Hrun : ∀ n s, cycling s →
            ∃ s', loop_head up n w (session_agents c) s = Some s' ∧ cycling s').
  { induction n as [|n IH]; intros s Hs; [eauto|].
    rewrite loop_head_S.
    assert (Hlt : (round_idx s <? MAX_ROUNDS)%nat = true).
    { apply Nat.ltb_lt. unfold MAX_ROUNDS. destruct Hs as [(_ & _ & ?) | [_ ?]]; lia. }
    rewrite Hlt. destruct (Hbody s Hs) as (s' & -> & Hs'). by apply IH. }
  intros n. destruct (Hrun n (start user_request)) as (st & Hst & Hcyc).
  { left. repeat split; simpl; lia. }
  exists st. split; [done|]. destruct Hcyc as [(_ & _ & ?) | [_ ?]]; lia.
Qed.

(** ** Publishing *)

Lemma runs_app tr1 tr2 : runs (tr1 ++ tr2) = runs tr1 ++ runs tr2.
Proof.
  induction tr1 as [|e tr1 IH]; [done|]. destruct e; simpl; by rewrite ?IH.
Qed.

Lemma runs_prints tr : forallb is_print tr = true → runs tr = [].
Proof.
  induction tr as [|e tr IH]; [done|]. by destruct e.
Qed.

Lemma count_app f tr1 tr2 : count f (tr1 ++ tr2) = (count f tr1 + count f tr2)%nat.
Proof. unfold count. by rewrite List.filter_app, length_app. Qed.

Lemma count_nil f : count f [] = 0%nat.
Proof. done. Qed.

Lemma count_cons f e tr :
  count f (e :: tr) = ((if f e then 1 else 0) + count f tr)%nat.
Proof. unfold count. simpl. by destruct (f e). Qed.

Lemma count_none (f g : Effect → bool) tr :
  (∀ e, g e = true → f e = false) → forallb g tr = true → count f tr = 0%nat.
Proof.
  intros Hfg. induction tr as [|e tr IH]; [done|]. simpl.
  intros [He Htr]%andb_true_iff. by rewrite count_cons, (Hfg e He), IH.
Qed.

Lemma count_zero_elem f tr e : count f tr = 0%nat → e ∈ tr → f e = false.
Proof.
  induction tr as [|x tr IH]; intros Hcount He; [by apply elem_of_nil in He|].
  rewrite count_cons in Hcount. apply elem_of_cons in He as [-> | He].
  - destruct (f x); [simpl in Hcount; lia | done].
  - apply IH; [lia | done].
Qed.

Lemma forallb_weaken (f g : Effect → bool) tr :
  (∀ e, f e = true → g e = true) → forallb f tr = true → forallb g tr = true.
Proof.
  intros Hfg. induction tr as [|e tr IH]; [done|]. simpl.
  intros [He Htr]%andb_true_iff. by rewrite (Hfg e He), IH.
Qed.

Lemma forallb_app_true (f : Effect → bool) tr1 tr2 :
  forallb f (tr1 ++ tr2) = true → forallb f tr1 = true ∧ forallb f tr2 = true.
Proof. rewrite forallb_app. apply andb_true_iff. Qed.

Lemma prints_are_print_or_run tr :
  forallb is_print tr = true → forallb print_or_run tr = true.
Proof. apply forallb_weaken. by intros []. Qed.

(** the effects of one [run] of [push_to_github]: the label, the command,
    then notices only, the last of which is [Failed] exactly when the
    result is [False] *)
Lemma git_run_trace w cmd label st :
  ∃ tail,
    trace (git_run w cmd label st).1
    = trace st ++ EPrint (NRunLabel label) :: ERun cmd :: tail
    ∧ forallb is_print tail = true
    ∧ if (git_run w cmd label st).2
      then count is_failed_notice tail = 0%nat
      else ∃ tail0 t, tail = tail0 ++ [EPrint (NFailed t)]
                      ∧ count is_failed_notice tail0 = 0%nat.
Proof.
  unfold git_run.
  generalize (subprocess_run w (trace (print (NRunLabel label) st)) cmd).
  intros result.
  destruct (strip (stdout result)) as [|o out],
    (bool_decide (returncode result ≠ 0%Z)),
    (contains (py "nothing to commit") (stdout result ++ stderr result));
    simpl_state; eexists; (split; [reflexivity|]); (split; [reflexivity|]);
    try reflexivity.
  - by exists [], (strip (stderr result)).
  - by exists [EPrint (NStdout (o :: out))], (strip (stderr result)).
Qed.

(** the effects of [push_to_github] *)
Lemma push_trace w st :
  let branch := getenv (environ w) "GITHUB_BRANCH" (py "main") in
  ∃ extra k,
    trace (push_to_github w st) = trace st ++ extra
    ∧ (1 ≤ k ≤ 3)%nat
    ∧ runs extra = take k (git_commands w)
    ∧ forallb print_or_run extra = true
    ∧ ((k = 3%nat
        ∧ ∃ pre, extra = pre ++ [EPrint NPushSucceeded]
                 ∧ count is_failed_notice pre = 0%nat)
       ∨ (∃ pre t, extra = pre ++ [EPrint (NFailed t); EPrint (NPushManual branch)]
                   ∧ count is_failed_notice pre = 0%nat)).
Proof.
  intros branch. unfold push_to_github, git_commands. fold branch.
  set (c1 := [py "git"; py "add"; index_html]).
  set (c2 := [py "git"; py "commit"; py "-m";
              py "Auto-push approved app [multi-agent]"]).
  set (c3 := [py "git"; py "push"; py "origin"; branch]).
  set (l1 := py "Staging index.html"). set (l2 := py "Committing").
  set (l3 := py "Pushing to " ++ branch).
  destruct (git_run_trace w c1 l1 (print NPushing st)) as (t1 & Ht1 & Hp1 & Hf1).
  destruct (git_run w c1 l1 (print NPushing st)) as [st1 ok1].
  cbn [fst snd] in Ht1, Hf1. change (trace (print NPushing st))
    with (trace st ++ [EPrint NPushing]) in Ht1.
  destruct ok1.
  2:{ destruct Hf1 as (t10 & t & -> & Hf1).
      apply forallb_app_true in Hp1 as [Hp1 _].
      exists (EPrint NPushing :: EPrint (NRunLabel l1) :: ERun c1
              :: t10 ++ [EPrint (NFailed t); EPrint (NPushManual branch)]), 1%nat.
      split; [simpl_state; rewrite Ht1, <- ?app_assoc; by flatten|].
      split; [lia|]. split; [simpl; by rewrite runs_app, (runs_prints t10)|].
      split; [simpl; by rewrite forallb_app, prints_are_print_or_run|].
      right. exists (EPrint NPushing :: EPrint (NRunLabel l1) :: ERun c1 :: t10), t.
      split; [done|]. by rewrite !count_cons. }
  destruct (git_run_trace w c2 l2 st1) as (t2 & Ht2 & Hp2 & Hf2).
  destruct (git_run w c2 l2 st1) as [st2 ok2]. cbn [fst snd] in Ht2, Hf2.
  destruct ok2.
  2:{ destruct Hf2 as (t20 & t & -> & Hf2).
      apply forallb_app_true in Hp2 as [Hp2 _].
      exists (EPrint NPushing :: EPrint (NRunLabel l1) :: ERun c1 :: t1
              ++ EPrint (NRunLabel l2) :: ERun c2
              :: t20 ++ [EPrint (NFailed t); EPrint (NPushManual branch)]), 2%nat.
      split; [simpl_state; rewrite Ht2, Ht1, <- ?app_assoc; by flatten|].
      split; [lia|].
      split; [simpl; rewrite runs_app, (runs_prints t1) by done; simpl;
              by rewrite runs_app, (runs_prints t20)|].
      split; [simpl; rewrite forallb_app, prints_are_print_or_run by done; simpl;
              by rewrite forallb_app, prints_are_print_or_run|].
      right. exists (EPrint NPushing :: EPrint (NRunLabel l1) :: ERun c1 :: t1
                     ++ EPrint (NRunLabel l2) :: ERun c2 :: t20), t.
      split; [by flatten|].
      rewrite !count_cons, count_app, !count_cons, Hf1, Hf2. done. }
  destruct (git_run_trace w c3 l3 st2) as (t3 & Ht3 & Hp3 & Hf3).
  destruct (git_run w c3 l3 st2) as [st3 ok3]. cbn [fst snd] in Ht3, Hf3.
  destruct ok3.
  - exists (EPrint NPushing :: EPrint (NRunLabel l1) :: ERun c1 :: t1
            ++ EPrint (NRunLabel l2) :: ERun c2 :: t2
            ++ EPrint (NRunLabel l3) :: ERun c3 :: t3 ++ [EPrint NPushSucceeded]),
      3%nat.
    split; [simpl_state; rewrite Ht3, Ht2, Ht1, <- ?app_assoc; by flatten|].
    split; [lia|].
    split; [simpl; rewrite runs_app, (runs_prints t1) by done; simpl;
            rewrite runs_app, (runs_prints t2) by done; simpl;
            by rewrite runs_app, (runs_prints t3)|].
    split; [simpl; rewrite forallb_app, prints_are_print_or_run by done; simpl;
            rewrite forallb_app, prints_are_print_or_run by done; simpl;
            by rewrite forallb_app, prints_are_print_or_run|].
    left. split; [done|].
    exists (EPrint NPushing :: EPrint (NRunLabel l1) :: ERun c1 :: t1
            ++ EPrint (NRunLabel l2) :: ERun c2 :: t2
            ++ EPrint (NRunLabel l3) :: ERun c3 :: t3).
    split; [by flatten|].
    rewrite !count_cons, count_app, !count_cons, count_app, !count_cons,
      Hf1, Hf2, Hf3. done.
  - destruct Hf3 as (t30 & t & -> & Hf3).
    apply forallb_app_true in Hp3 as [Hp3 _].
    exists (EPrint NPushing :: EPrint (NRunLabel l1) :: ERun c1 :: t1
            ++ EPrint (NRunLabel l2) :: ERun c2 :: t2
            ++ EPrint (NRunLabel l3) :: ERun c3
            :: t30 ++ [EPrint (NFailed t); EPrint (NPushManual branch)]), 3%nat.
    split; [simpl_state; rewrite Ht3, Ht2, Ht1, <- ?app_assoc; by flatten|].
    split; [lia|].
    split; [simpl; rewrite runs_app, (runs_prints t1) by done; simpl;
            rewrite runs_app, (runs_prints t2) by done; simpl;
            by rewrite runs_app, (runs_prints t30)|].
    split; [simpl; rewrite forallb_app, prints_are_print_or_run by done; simpl;
            rewrite forallb_app, prints_are_print_or_run by done; simpl;
            by rewrite forallb_app, prints_are_print_or_run|].
    right. exists (EPrint NPushing :: EPrint (NRunLabel l1) :: ERun c1 :: t1
                   ++ EPrint (NRunLabel l2) :: ERun c2 :: t2
                   ++ EPrint (NRunLabel l3) :: ERun c3 :: t30), t.
    split; [by flatten|].
    rewrite !count_cons, count_app, !count_cons, count_app, !count_cons,
      Hf1, Hf2, Hf3. done.
Qed.

(** X8. [push_to_github] runs an initial part of [git add], [git commit],
    [git push origin <branch>] in that order, the branch being
    [GITHUB_BRANCH] or [main]; it announces success only after all three
    have run with no [Failed] notice, and otherwise ends with the one
    [Failed] notice followed at once by the manual instructions, so no
    command runs after the one that failed.  It leaves the history as it
    is. *)
Theorem push_stops_at_first_failure w st :
  let branch := getenv (environ w) "GITHUB_BRANCH" (py "main") in
  let tr := trace (push_to_github w st) in
  history (push_to_github w st) = history st
  ∧ ∃ k, (1 ≤ k ≤ 3)%nat
         ∧ runs tr = runs (trace st) ++ take k (git_commands w)
         ∧ ((k = 3%nat
             ∧ last tr = Some (EPrint NPushSucceeded)
             ∧ count is_failed_notice tr = count is_failed_notice (trace st))
            ∨ (∃ pre t,
                 tr = pre ++ [EPrint (NFailed t); EPrint (NPushManual branch)]
                 ∧ count is_failed_notice pre
                   = count is_failed_notice (trace st))).
Proof.
  intros branch tr. split; [apply push_to_github_fields|].
  destruct (push_trace w st) as (extra & k & Htr & Hk & Hruns & _ & Hend).
  fold tr in Htr. exists k. split; [done|]. split; [by rewrite Htr, runs_app, Hruns|].
  destruct Hend as [(-> & pre & -> & Hpre) | (pre & t & -> & Hpre)].
  - left. split; [done|]. rewrite Htr, app_assoc, last_snoc. split; [done|].
    rewrite !count_app, !count_cons, count_nil, Hpre. simpl. lia.
  - right. exists (trace st ++ pre), t. rewrite Htr, <- app_assoc.
    split; [done|]. rewrite count_app, Hpre. lia.
Qed.

(** the effects of the post-approval steps *)
Lemma after_approval_trace w st :
  let hist' :=
    history st ++ [mkMessage user User (strip (input w (trace st)))] in
  ∃ extra,
    trace (after_approval w st) = trace st ++ EInput :: extra
    ∧ count is_create extra = 0%nat
    ∧ count is_input extra = 0%nat
    ∧ (count publishes extra = 0%nat
       ∨ ∃ h, h ≠ [] ∧ extract_html hist' = Some h
              ∧ EWrite index_html h ∈ extra).
Proof.
  intros hist'. unfold after_approval. fold hist'.
  destruct (extract_html hist') as [[|c html]|].
  - exists [EPrint NApprovedReceived; EPrint NNoHtmlFound].
    split; [by simpl_state|]. repeat split; try done. by left.
  - destruct (push_trace w (save_html (c :: html) index_html (approved_state w st)))
      as (extra & k & Htr & _ & _ & Hall & _).
    exists (EPrint NApprovedReceived :: EWrite index_html (c :: html)
            :: EPrint (NSaved index_html) :: extra).
    split; [rewrite Htr; by simpl_state|].
    split; [rewrite !count_cons; simpl;
            apply (count_none _ print_or_run); [by intros []|done]|].
    split; [rewrite !count_cons; simpl;
            apply (count_none _ print_or_run); [by intros []|done]|].
    right. exists (c :: html). repeat split; try done.
    apply elem_of_cons. right. apply elem_of_cons. by left.
  - exists [EPrint NApprovedReceived; EPrint NNoHtmlFound].
    split; [by simpl_state|]. repeat split; try done. by left.
Qed.

(** the write of the post-approval steps: it comes right after the
    approval notice, with the text that [extract_html] found, and only
    notices and commands follow it *)
Lemma after_approval_write w st c html :
  extract_html (history st ++ [mkMessage user User (strip (input w (trace st)))])
  = Some (c :: html) →
  ∃ rest,
    trace (after_approval w st)
    = trace st ++ [EInput; EPrint NApprovedReceived;
                   EWrite index_html (c :: html)] ++ rest
    ∧ forallb print_or_run rest = true.
Proof.
  intros Hhtml. unfold after_approval. rewrite Hhtml.
  destruct (push_trace w (save_html (c :: html) index_html (approved_state w st)))
    as (extra & k & Htr & _ & _ & Hall & _).
  exists (EPrint (NSaved index_html) :: extra).
  split; [rewrite Htr; by simpl_state|]. done.
Qed.

(** C10. Let the newest turn with a block read
    [pre ++ fence ++ tag ++ inner ++ fence ++ post], where no opening fence
    tagged [html] starts inside [pre] and the closing fence is the first
    fence after the tag.  Then [extract_html] returns [inner] with the
    whitespace of both ends stripped, whatever blocks follow in [post];
    and on approval, when that text is not empty, the write to
    [index.html] is made with that stripped text, right after the approval
    notice, and it is the only write of the pass: what follows it are
    notices and commands. *)
Theorem first_block_trimmed w st older m newer pre tag inner post :
  content m = pre ++ fence ++ tag ++ inner ++ fence ++ post →
  is_html_tag tag →
  (∀ k, k < length pre → ¬ opens_html (drop k (content m))) →
  (∀ k, k < length inner →
        startswith fence (drop k (inner ++ fence ++ post)) = false) →
  Forall (λ m', ¬ has_html_block (content m')) newer →
  extract_html (older ++ m :: newer) = Some (strip inner)
  ∧ trimmed (strip inner)
  ∧ (history st ++ [mkMessage user User (strip (input w (trace st)))]
     = older ++ m :: newer →
     should_terminate up (older ++ m :: newer) = true →
     strip inner ≠ [] →
     ∃ rest,
       trace (flow_state (approval_gate up w st))
       = trace st ++ [EInput; EPrint NApprovedReceived;
                      EWrite index_html (strip inner)] ++ rest
       ∧ forallb print_or_run rest = true).
Proof.
  intros Hm Htag Hpre Hinner Hnewer.
  assert (Hextract : extract_html (older ++ m :: newer) = Some (strip inner)).
  { rewrite extract_html_at by done. rewrite Hm in Hpre |- *.
    rewrite search_first by done. unfold strip. by rewrite lstrip_idemp. }
  split; [done|]. split; [apply strip_trimmed|].
  intros Hhist Hterm Hne. rewrite approval_gate_eq. cbv zeta.
  rewrite <- Hhist, should_terminate_snoc in Hterm by done.
  simpl in Hterm. rewrite strip_idemp in Hterm. rewrite Hterm.
  change (flow_state (Break ?s)) with s.
  rewrite <- Hhist in Hextract.
  destruct (strip inner) as [|c html] eqn:Hstrip; [done|].
  apply (after_approval_write w st c html Hextract).
Qed.

Lemma human_turns_snoc hist m :
  human_turns (hist ++ [m])
  = (human_turns hist + (if bool_decide (role m = user) then 1 else 0))%nat.
Proof.
  unfold human_turns. rewrite filter_app, length_app. f_equal.
  rewrite filter_cons, filter_nil. case_bool_decide; by case_decide.
Qed.

(** ** Calls and turns *)

(** X12. In every run that no exception has ended (one left by the
    approval break or by the round cap, or one looked at at the head of
    the loop after as many passes as there was fuel) each agent turn of
    the history comes from exactly one call to the completion service and
    each human turn after the request from exactly one read of a line:
    there are no retries and no cached replies. *)
Theorem one_call_per_turn fuel w user_request :
  let r := run_multi_agent_chat up fuel w user_request in
  (∀ e, r.1 ≠ Raised e) →
  count is_create (trace r.2) = agent_turns (history r.2)
  ∧ S (count is_input (trace r.2)) = human_turns (history r.2).
Proof.
  cbv zeta. rewrite run_multi_agent_chat_eq. set (c := mkClient _).
  pose (I := λ st : State,
          count is_create (trace st) = agent_turns (history st)
          ∧ S (count is_input (trace st)) = human_turns (history st)).
  apply (loop_invariant w (session_agents c) I
           (λ o st, (∀ e, o ≠ Raised e) → I st)).
  - intros st [Hc Hi] _.
    assert (Hturn : ∀ s, I s →
              match agent_turn up w (session_agents c) s with
              | Next st' => I st'
              | Break _ => False
              | Raise _ _ => True
              end).
    { intros s [Hsc Hsi]. destruct (session_turn_cases w c s)
        as [[_ ->] | [(r & _ & _ & ->) | (r & _ & _ & ->)]]; [done|..];
        unfold I; cbn [history trace];
        rewrite ?agent_turns_snoc, ?human_turns_snoc, !count_app, ?count_cons;
        simpl; rewrite ?count_nil; lia. }
    destruct (loop_body_split w (session_agents c) st)
      as [(_ & _ & ->) | [(_ & _ & ->) | (_ & ->)]].
    + intros _. unfold I.
      destruct (after_approval_fields w st) as [-> _].
      destruct (after_approval_trace w st) as (extra & -> & Hec & Hei & _).
      rewrite agent_turns_snoc, human_turns_snoc, !count_app, !count_cons, Hec, Hei.
      simpl. lia.
    + assert (Hres : I (resumed w st)).
      { unfold I, resumed; cbn [history trace].
        rewrite agent_turns_snoc, human_turns_snoc, !count_app, !count_cons.
        simpl; rewrite ?count_nil; lia. }
      specialize (Hturn _ Hres).
      destruct (agent_turn up w (session_agents c) (resumed w st));
        [done | done | intros Hne; by destruct (Hne e)].
    + specialize (Hturn st (conj Hc Hi)).
      destruct (agent_turn up w (session_agents c) st);
        [done | done | intros Hne; by destruct (Hne e)].
  - intros st Hst _. done.
  - intros st [Hc Hi] _. unfold I. simpl_state.
    rewrite !count_app, !count_cons, !count_nil. simpl. split; lia.
  - split; reflexivity.
Qed.

(** X7. Nothing is written and no command is run unless the human has
    approved: if the trace of a run holds a file write or a command, the
    termination predicate is true of its history, [extract_html] of that
    history is a text that is not empty, the first write or command of the
    trace is the write of that text to [index.html], and after it come
    notices and commands only: no agent is called and no line is read. *)
Theorem nothing_published_unapproved fuel w user_request e :
  let r := run_multi_agent_chat up fuel w user_request in
  e ∈ trace r.2 →
  publishes e = true →
  should_terminate up (history r.2) = true
  ∧ ∃ h before rest,
      h ≠ [] ∧ extract_html (history r.2) = Some h
      ∧ trace r.2 = before ++ EWrite index_html h :: rest
      ∧ count publishes before = 0%nat
      ∧ forallb print_or_run rest = true.
Proof.
  cbv zeta. rewrite run_multi_agent_chat_eq. set (c := mkClient _).
  intros He Hpub.
  pose (F := λ (o : Outcome) (st : State),
          count publishes (trace st) = 0%nat
          ∨ (should_terminate up (history st) = true
             ∧ ∃ h before rest,
                 h ≠ [] ∧ extract_html (history st) = Some h
                 ∧ trace st = before ++ EWrite index_html h :: rest
                 ∧ count publishes before = 0%nat
                 ∧ forallb print_or_run rest = true)).
  assert (HF : F (loop up fuel w (session_agents c) (start user_request)).1
                 (loop up fuel w (session_agents c) (start user_request)).2).
  { apply (loop_invariant w (session_agents c)
             (λ st, count publishes (trace st) = 0%nat) F);
      [|intros st Hst; by left| |done].
    - intros st Hst _.
      assert (Hturn : ∀ s, count publishes (trace s) = 0%nat →
                match agent_turn up w (session_agents c) s with
                | Next st' => count publishes (trace st') = 0%nat
                | Break _ => False
                | Raise e' st' => F (Raised e') st'
                end).
      { intros s Hs. destruct (session_turn_cases w c s)
          as [[_ ->] | [(r & _ & _ & ->) | (r & _ & _ & ->)]]; [left|..];
          cbn [trace]; rewrite !count_app, Hs; done. }
      destruct (loop_body_split w (session_agents c) st)
        as [(_ & Happ & ->) | [(_ & _ & ->) | (_ & ->)]].
      + destruct (after_approval_fields w st) as [Hh _].
        destruct (after_approval_trace w st)
          as (extra & Htr & _ & _ & [Hnone | (h & Hne & Hh' & _)]).
        * left. rewrite Htr, count_app, count_cons, Hst, Hnone. done.
        * right. rewrite Hh.
          split; [rewrite should_terminate_snoc by done; simpl;
                  rewrite strip_idemp; by apply bool_decide_eq_true_2|].
          destruct h as [|ch html]; [done|].
          destruct (after_approval_write w st ch html Hh') as (rest & Hw & Hrest).
          exists (ch :: html), (trace st ++ [EInput; EPrint NApprovedReceived]),
            rest.
          repeat split; try done.
          -- rewrite Hw, <- app_assoc. done.
          -- rewrite count_app, Hst. done.
      + assert (Hres : count publishes (trace (resumed w st)) = 0%nat).
        { unfold resumed; cbn [trace]. by rewrite count_app, Hst. }
        specialize (Hturn _ Hres).
        by destruct (agent_turn up w (session_agents c) (resumed w st)).
      + specialize (Hturn st Hst).
        by destruct (agent_turn up w (session_agents c) st).
    - intros st Hst. left. simpl_state. by rewrite count_app, Hst. }
  destruct HF as [Hnone | HF]; [|done].
  rewrite (count_zero_elem _ _ _ Hnone He) in Hpub. done.
Qed.

(** ** Edge cases of the extraction *)

Lemma lstrip_all_space ws :
  Forall (λ c, isspace c = true) ws → lstrip ws = [].
Proof. intros Hws. by rewrite <- (app_nil_r ws), lstrip_app_ws. Qed.

Lemma no_fence_in_space ws rest k :
  Forall (λ c, isspace c = true) ws →
  (k < length ws)%nat →
  startswith fence (drop k (ws ++ rest)) = false.
Proof.
  intros Hws Hk. destruct (lookup_lt_is_Some_2 ws k Hk) as [c Hc].
  rewrite (drop_S (ws ++ rest) c k) by by apply lookup_app_l_Some.
  apply startswith_fence_ws. by apply (Forall_lookup_1 _ _ _ _ Hws Hc).
Qed.

(** X9. A fenced [html] block with nothing but whitespace between its
    fences is found by [extract_html], which returns the empty string and
    not [None]; on approval the empty string counts as no HTML: the notice
    is printed, nothing is written and nothing is pushed. *)
Theorem blank_block_is_not_saved w st older m newer pre tag ws post :
  content m = pre ++ fence ++ tag ++ ws ++ fence ++ post →
  is_html_tag tag →
  Forall (λ c, isspace c = true) ws →
  (∀ k, (k < length pre)%nat → ¬ opens_html (drop k (content m))) →
  Forall (λ m', ¬ has_html_block (content m')) newer →
  history st ++ [mkMessage user User (strip (input w (trace st)))]
  = older ++ m :: newer →
  should_terminate up (older ++ m :: newer) = true →
  has_html_block (content m)
  ∧ extract_html (older ++ m :: newer) = Some []
  ∧ approval_gate up w st = Break (print NNoHtmlFound (approved_state w st)).
Proof.
  intros Hm Htag Hws Hpre Hnewer Hhist Hterm.
  assert (Hblock : has_html_block (content m)).
  { rewrite Hm. by exists pre, tag, ws, post. }
  assert (Hextract : extract_html (older ++ m :: newer) = Some []).
  { rewrite extract_html_at by done. rewrite Hm in Hpre |- *.
    rewrite search_first; [|done..|by intros k; apply no_fence_in_space].
    by rewrite lstrip_all_space. }
  repeat split; [done..|].
  rewrite approval_gate_eq. cbv zeta. rewrite Hhist, Hextract.
  rewrite <- Hhist, should_terminate_snoc in Hterm by done.
  simpl in Hterm. rewrite strip_idemp in Hterm. by rewrite Hterm.
Qed.

(** ** The entry point *)

Lemma strip_nil_iff s : strip s = [] ↔ forallb isspace s = true.
Proof.
  split.
  - intros Hs. unfold strip in Hs.
    destruct (lstrip_split s) as (ws & Hsplit & Hws).
    destruct (lstrip_nil_or_cons s) as [Hnil | (c & t & Hcons & Hc)].
    + rewrite Hnil, app_nil_r in Hsplit. subst ws.
      apply forallb_forall. intros c Hc%list_elem_of_In.
      by apply (proj1 (Forall_forall _ _) Hws).
    + rewrite Hcons in Hs. destruct (rstrip_cons_nonws c t Hc) as [t' Ht'].
      by rewrite Ht' in Hs.
  - intros Hall. unfold strip. rewrite lstrip_all_space; [done|].
    apply Forall_forall. intros c Hc%list_elem_of_In.
    by apply (proj1 (forallb_forall _ _) Hall).
Qed.

(** X10. [interactive_session] never starts a chat on an empty request:
    when the line typed is empty or only whitespace the chat runs on the
    built-in calculator request, and otherwise on the line with the
    whitespace of both ends stripped; that request is the first turn of
    the history. *)
Theorem session_request_never_empty fuel w :
  let line := input w [] in
  let request := if forallb isspace line then DEFAULT_REQUEST else strip line in
  (interactive_session up fuel w).1 = run_multi_agent_chat up fuel w request
  ∧ request ≠ []
  ∧ (∃ rest, history (interactive_session up fuel w).1.2
             = mkMessage user User request :: rest)
  ∧ ∃ chat, (interactive_session up fuel w).2 = SBanner :: SPrompt :: chat.
Proof.
  intros line request. unfold interactive_session. fold line. cbn [fst snd].
  assert (Hreq : match strip line with [] => DEFAULT_REQUEST | _ => strip line end
                 = request).
  { unfold request. destruct (forallb isspace line) eqn:Hall.
    - apply strip_nil_iff in Hall. by rewrite Hall.
    - destruct (strip line) eqn:Hs; [|done].
      apply strip_nil_iff in Hs. congruence. }
  rewrite Hreq. split; [done|]. split.
  { unfold request. destruct (forallb isspace line) eqn:Hall; [done|].
    intros Hs%strip_nil_iff. congruence. }
  split; [|by eexists].
  rewrite run_multi_agent_chat_eq.
  apply (history_invariant (λ h, ∃ rest, h = mkMessage user User request :: rest)).
  - intros h l [rest ->]. by eexists.
  - intros h i r [rest ->]. by eexists.
  - by exists [].
Qed.

(** ** Personas *)

(** X15. [ClaudeAgent(name, client)] succeeds exactly for the three names
    of the rotation, with that name, that client and the persona's text,
    which is not empty; any other name is a missing key of [PERSONAS]. *)
Theorem agent_needs_persona who c :
  (who ∈ AGENT_ORDER →
   ∃ sys, ClaudeAgent_init who c = Some (mkAgent who sys c)
          ∧ dict_get PERSONAS who = Some sys ∧ sys ≠ [])
  ∧ (who ∉ AGENT_ORDER → ClaudeAgent_init who c = None).
Proof.
  split.
  - intros Hin. unfold AGENT_ORDER in Hin.
    repeat (apply elem_of_cons in Hin as [-> | Hin]);
      [..|by apply elem_of_nil in Hin]; eexists;
      (split; [reflexivity|]); (split; [reflexivity|]); done.
  - intros Hout. unfold AGENT_ORDER in Hout.
    apply not_elem_of_cons in Hout as [H1 Hout].
    apply not_elem_of_cons in Hout as [H2 Hout].
    apply not_elem_of_cons in Hout as [H3 _].
    unfold ClaudeAgent_init, PERSONAS. cbn [dict_get].
    rewrite !bool_decide_eq_false_2 by done. done.
Qed.

(** ** How long a run can last *)

Lemma pass_adds_one_turn w c st st' :
  loop_body up w (session_agents c) st = Next st' →
  agent_turns (history st') = S (agent_turns (history st))
  ∧ ((round_idx st < MAX_ROUNDS)%nat → (round_idx st' ≤ MAX_ROUNDS)%nat)
  ∧ ready_turns up (history st')
    = (ready_turns up (history st)
       + if waiting_for_approval st' then 1 else 0)%nat
  ∧ count is_input (trace st')
    = (count is_input (trace st)
       + if waiting_for_approval st then 1 else 0)%nat.
Proof.
  assert (Hturn : ∀ s, waiting_for_approval s = false →
            agent_turn up w (session_agents c) s = Next st' →
            agent_turns (history st') = S (agent_turns (history s))
            ∧ ((round_idx s < MAX_ROUNDS)%nat → (round_idx st' ≤ MAX_ROUNDS)%nat)
            ∧ ready_turns up (history st')
              = (ready_turns up (history s)
                 + if waiting_for_approval st' then 1 else 0)%nat
            ∧ count is_input (trace st') = count is_input (trace s)).
  { intros s Hw Hs. destruct (session_turn_cases w c s)
      as [[_ He] | [(r & _ & Hsig & He) | (r & _ & Hsig & He)]];
      rewrite He in Hs; [done|..]; injection Hs as <-;
      cbn [history trace round_idx waiting_for_approval];
      rewrite agent_turns_snoc, ready_turns_snoc, !count_app, !count_cons,
        !count_nil; unfold is_ready_turn; simpl; rewrite Hsig, ?Hw;
      repeat split; lia. }
  intros Hbody. destruct (loop_body_split w (session_agents c) st)
    as [(_ & _ & Hb) | [(Hw & _ & Hb) | (Hw & Hb)]]; rewrite Hb in Hbody.
  - done.
  - destruct (Hturn (resumed w st) eq_refl Hbody) as (Ha & Hr & Hready & Hin).
    unfold resumed in Ha, Hr, Hready, Hin. cbn [history trace round_idx] in *.
    rewrite agent_turns_snoc in Ha. rewrite ready_turns_snoc in Hready.
    rewrite count_app, count_cons, count_nil in Hin. simpl in *.
    rewrite Hw. repeat split; [lia | done | | lia].
    change (is_ready_turn up (mkMessage user User (strip (input w (trace st)))))
      with false in Hready. lia.
  - destruct (Hturn st Hw Hbody) as (Ha & Hr & Hready & Hin).
    rewrite Hw. repeat split; [done..|lia].
Qed.

(** X17. The number of passes is bounded by the cap and the human's
    remarks together: after [n] passes the history holds exactly [n]
    agent turns, the round count is at most [MAX_ROUNDS], and [n] is at
    most [MAX_ROUNDS], plus the number of lines read from the human, plus
    one. *)
Theorem passes_bounded_by_remarks w c user_request n st :
  loop_head up n w (session_agents c) (start user_request) = Some st →
  agent_turns (history st) = n
  ∧ (round_idx st ≤ MAX_ROUNDS)%nat
  ∧ (n ≤ MAX_ROUNDS + count is_input (trace st) + 1)%nat.
Proof.
  intros Hhead.
  assert (Hinv : ∀ k s, loop_head up k w (session_agents c) (start user_request)
                        = Some s →
            agent_turns (history s) = k
            ∧ (round_idx s ≤ MAX_ROUNDS)%nat
            ∧ accounted up s
            ∧ ready_turns up (history s)
              = (count is_input (trace s)
                 + if waiting_for_approval s then 1 else 0)%nat).
  { induction k as [|k IH]; intros s Hs.
    - injection Hs as <-. repeat split; [unfold MAX_ROUNDS; simpl; lia..].
    - apply loop_head_last in Hs as (s1 & Hs1 & Hlt & Hbody).
      destruct (IH s1 Hs1) as (Hk & _ & Hacc & Hready).
      destruct (pass_adds_one_turn w c s1 s Hbody) as (Ha & Hr & Hready' & Hin).
      pose proof (loop_body_accounted up w (session_agents c) s1 Hacc) as Hacc'.
      rewrite Hbody in Hacc'.
      repeat split; [lia | by apply Hr | done |].
      rewrite Hready', Hin, Hready. lia. }
  destruct (Hinv n st Hhead) as (Hn & Hr & Hacc & Hready).
  repeat split; [done..|]. unfold accounted in Hacc.
  destruct (waiting_for_approval st); lia.
Qed.

End Further.

(** * The single-agent chat *)

Lemma chat_of_role_app r h1 h2 :
  Chat.of_role r (h1 ++ h2) = Chat.of_role r h1 ++ Chat.of_role r h2.
Proof. apply filter_app. Qed.

Lemma chat_of_role_one r r' c :
  Chat.of_role r [Chat.mkEntry r' c]
  = if bool_decide (r' = r) then [Chat.mkEntry r' c] else [].
Proof. by destruct r, r'. Qed.

Lemma chat_process_message_history call h :
  let h' := (Chat.process_message call h).1.2 in
  (∃ added, h' = h ++ added)
  ∧ Chat.of_role user h'
    = Chat.of_role user h ++ Chat.questions [call]
  ∧ (length (Chat.of_role assistant h')
     ≤ length (Chat.of_role assistant h) + length (Chat.questions [call]))%nat.
Proof.
  unfold Chat.process_message, Chat.questions.
  rewrite filter_cons, filter_nil.
  destruct (Chat.client_built call) eqn:Hbuilt; cbn [fst snd].
  - rewrite decide_True by done.
    destruct (Chat.complete call _) as [reply | text]; cbn [fst snd map];
      (split; [rewrite <- ?app_assoc; by eexists|]);
      rewrite !chat_of_role_app, !chat_of_role_one; simpl;
      rewrite ?app_nil_r, ?length_app; simpl; split; try done; lia.
  - rewrite decide_False by congruence. simpl. rewrite !app_nil_r.
    split; [exists []; by rewrite app_nil_r|]. split; [done|lia].
Qed.

(** X16. Whatever the calls of [process_message] do, the global history
    only grows: after any number of calls it still starts with what it
    held before, its user entries are the old ones followed by the inputs
    of every call that got a client, in order and whether or not the
    completion failed, and at most one assistant entry was added per such
    input.  Every call gives one result. *)
Theorem chat_history_keeps_questions (calls : list Chat.Call)
    (chat_history : list Chat.Entry) :
  let after := (Chat.process_all calls chat_history).2 in
  (∃ added, after = chat_history ++ added)
  ∧ Chat.of_role user after
    = Chat.of_role user chat_history ++ Chat.questions calls
  ∧ (length (Chat.of_role assistant after)
     ≤ length (Chat.of_role assistant chat_history)
       + length (Chat.questions calls))%nat
  ∧ length (Chat.process_all calls chat_history).1 = length calls.
Proof.
  revert chat_history. induction calls as [|call calls IH]; intros h.
  - simpl. split; [exists []; by rewrite app_nil_r|].
    unfold Chat.questions. rewrite filter_nil. simpl. rewrite app_nil_r.
    repeat split; (done || lia).
  - cbn [Chat.process_all].
    pose proof (chat_process_message_history call h) as Hstep.
    destruct (Chat.process_message call h) as [[result h1] logged].
    cbn [fst snd] in Hstep. destruct Hstep as ([added1 ->] & Huser1 & Hreply1).
    specialize (IH (h ++ added1)).
    destruct (Chat.process_all calls (h ++ added1)) as [results h2].
    cbn [fst snd] in IH |- *.
    destruct IH as ([added2 ->] & Huser2 & Hreply2 & Hlen).
    assert (Hq : Chat.questions (call :: calls)
                 = Chat.questions [call] ++ Chat.questions calls).
    { unfold Chat.questions.
      change (call :: calls) with ([call] ++ calls).
      by rewrite filter_app, map_app. }
    split; [exists (added1 ++ added2); by rewrite app_assoc|].
    split; [by rewrite Huser2, Huser1, Hq, app_assoc|].
    split; [rewrite Hq, length_app; lia|]. simpl. by rewrite Hlen.
Qed.

(** * More runs on concrete transcripts *)

Lemma first_block_trimmed_witness :
  extract_html reviewed_history = Some (py "<p>one</p>")
  ∧ trimmed (py "<p>one</p>")
  ∧ ∃ rest,
      trace (flow_state (approval_gate ascii_upper approving_world
                           waiting_reviewed))
      = [EInput; EPrint NApprovedReceived;
         EWrite index_html (py "<p>one</p>")] ++ rest
      ∧ forallb print_or_run rest = true.
Proof.
  destruct (first_block_trimmed ascii_upper approving_world waiting_reviewed
              (take 2 reviewed_history) engineer_two_blocks
              (drop 3 reviewed_history)
              (py "Here it is: ") (py "HTML") (py "
<p>one</p>
") (py " and ```html <p>two</p>```")) as (Hextract & Htrim & Hsave).
  - reflexivity.
  - reflexivity.
  - apply no_opening_forallb. vm_compute. reflexivity.
  - apply no_fence_forallb. vm_compute. reflexivity.
  - apply no_block_forallb. vm_compute. reflexivity.
  - split; [exact Hextract|]. split; [exact Htrim|].
    apply Hsave; [reflexivity | vm_compute; reflexivity | vm_compute; discriminate].
Defined.

Lemma outbound_ends_with_user_witness :
  ∃ m, last (build_messages (agent_for no_client ProductOwner)
               (history owner_next)) = Some m
       ∧ out_role m = user.
Proof.
  destruct (outbound_ends_with_user (agent_for no_client ProductOwner)
              (history owner_next)) as [Hlast _]; [discriminate|].
  exact Hlast.
Defined.

Lemma rotation_order_kept_witness :
  round_idx after_three = 3
  ∧ agent_idx after_three = 3
  ∧ map name (history after_three) = User :: map who_at (seq 0 3)
  ∧ map role (history after_three) = user :: replicate 3 assistant.
Proof.
  apply (rotation_order_kept ascii_upper quiet_world no_client (content calc)
           3 after_three).
  - vm_compute. reflexivity.
  - apply no_ready_turn_forallb. vm_compute. reflexivity.
Defined.

Lemma waiting_is_below_the_cap_witness :
  round_idx after_signal < MAX_ROUNDS
  ∧ AGENT_ORDER !! (agent_idx after_signal mod length AGENT_ORDER)
    = Some ProductOwner.
Proof.
  apply (waiting_is_below_the_cap ascii_upper approving_world no_client
           (content calc) 3 after_signal).
  - vm_compute. reflexivity.
  - reflexivity.
Defined.

Lemma remarks_outlast_the_cap_witness :
  ∃ st, loop_head ascii_upper 50 eager_world (session_agents no_client)
          (start (content calc)) = Some st
        ∧ round_idx st ≤ 2.
Proof.
  apply (remarks_outlast_the_cap ascii_upper eager_world no_client
           (content calc)).
  - intros tr req. exists (py "READY FOR USER APPROVAL").
    split; [reflexivity|]. exists [], []. reflexivity.
  - intros tr. vm_compute. discriminate.
Defined.

Lemma nothing_published_unapproved_witness :
  let r := run_multi_agent_chat ascii_upper 10 approving_world (content calc) in
  should_terminate ascii_upper (history r.2) = true
  ∧ ∃ h before rest,
      h ≠ [] ∧ extract_html (history r.2) = Some h
      ∧ trace r.2 = before ++ EWrite index_html h :: rest
      ∧ count publishes before = 0
      ∧ forallb print_or_run rest = true.
Proof.
  apply (nothing_published_unapproved ascii_upper 10 approving_world
           (content calc) (EWrite index_html (py "<p>one</p>"))).
  - apply (list_elem_of_lookup_2 _ 14). vm_compute. reflexivity.
  - reflexivity.
Defined.

Lemma one_call_per_turn_witness :
  let r := run_multi_agent_chat ascii_upper 10 approving_world (content calc) in
  count is_create (trace r.2) = agent_turns (history r.2)
  ∧ S (count is_input (trace r.2)) = human_turns (history r.2).
Proof.
  apply (one_call_per_turn ascii_upper 10 approving_world (content calc)).
  intros e. vm_compute. discriminate.
Defined.

(** the counts of that run: three calls for three agent turns, one line
    read for the one human turn after the request *)
Example approved_run_counts :
  let r := run_multi_agent_chat ascii_upper 10 approving_world (content calc) in
  count is_create (trace r.2) = 3 ∧ agent_turns (history r.2) = 3
  ∧ count is_input (trace r.2) = 1 ∧ human_turns (history r.2) = 2.
Proof. vm_compute. repeat split. Qed.

Lemma blank_block_is_not_saved_witness :
  has_html_block (content engineer_blank_block)
  ∧ extract_html (history waiting_blank ++ [mkMessage user User (py "Approved")])
    = Some []
  ∧ approval_gate ascii_upper approving_world waiting_blank
    = Break (print NNoHtmlFound (approved_state approving_world waiting_blank)).
Proof.
  apply (blank_block_is_not_saved ascii_upper approving_world waiting_blank
           [calc] engineer_blank_block
           [mkMessage assistant ProductOwner (py "Ready for user approval");
            mkMessage user User (py "Approved")]
           [] (py "html") (py "
   ") []).
  - reflexivity.
  - reflexivity.
  - repeat constructor.
  - intros k Hk. simpl in Hk. lia.
  - apply no_block_forallb. vm_compute. reflexivity.
  - reflexivity.
  - vm_compute. reflexivity.
Defined.

Lemma approved_after_signal_witness :
  ∃ h po u,
    history (run_multi_agent_chat ascii_upper 10 approving_world
               (content calc)).2 = h ++ [po; u]
    ∧ name po = ProductOwner ∧ role po = assistant
    ∧ is_substring READY (upper ascii_upper (content po))
    ∧ name u = User ∧ role u = user
    ∧ upper ascii_upper (content u) = py "APPROVED".
Proof.
  apply (approved_after_signal ascii_upper 10 approving_world (content calc)).
  vm_compute. reflexivity.
Defined.

Lemma agent_needs_persona_witness :
  ClaudeAgent_init (py "Tester") no_client = None.
Proof.
  apply (agent_needs_persona (py "Tester") no_client).
  intros Hin. unfold AGENT_ORDER in Hin.
  repeat (apply elem_of_cons in Hin as [Hin | Hin];
          [vm_compute in Hin; discriminate|]).
  by apply elem_of_nil in Hin.
Defined.

(** the user's questions survive a failed completion and a client that
    cannot be built leaves the history alone *)
Example chat_three_calls :
  (Chat.process_all
     [Chat.mkCall (py "hi") true (λ _, Chat.Failure (py "timeout"));
      Chat.mkCall (py "lost") false (λ _, Chat.Content None);
      Chat.mkCall (py "again") true (λ h, Chat.Content (Some (py "hello")))]
     (Chat.reset_chat_history [Chat.mkEntry user (Some (py "old"))]))
  = ([Chat.Returned (Some (py "Error: timeout")); Chat.ClientError;
      Chat.Returned (Some (py "hello"))],
     [Chat.mkEntry user (Some (py "hi")); Chat.mkEntry user (Some (py "again"));
      Chat.mkEntry assistant (Some (py "hello"))]).
Proof. reflexivity. Qed.

Lemma passes_bounded_by_remarks_witness :
  agent_turns (history after_signal) = 3
  ∧ round_idx after_signal ≤ MAX_ROUNDS
  ∧ 3 ≤ MAX_ROUNDS + count is_input (trace after_signal) + 1.
Proof.
  apply (passes_bounded_by_remarks ascii_upper approving_world no_client
           (content calc) 3 after_signal).
  vm_compute. reflexivity.
Defined.
